(** * staticdir: a shallow embedding of the tree translator

    The repository holds two revisions of one Go package:

    - [src/staticdir.go]       (module [RevA] below), the earlier one, and
    - [src/unnamed/part_000]   (module [RevB] below), which adds the
      tolerant [os.Mkdir] policy, a [Translate] that starts the walk, and
      [TemplateCopy].

    [New], [CopyFile], [GetChildren], [ExcludeNone] and [ColdCopy] are the
    same text in both files and are embedded once (module [Common]).

    The Go runtime the package calls ([strings], [path], [os], [io]) is
    modelled in module [Go]: a directory tree with permission bits, a
    path walk, and system calls that return Go-style results and record
    themselves in a trace. *)

From Stdlib Require Import List String Ascii ZArith Bool Lia.
From Stdlib.Strings Require Import Byte.
Import ListNotations.
Set Warnings "-register-all".
Open Scope string_scope.
Open Scope Z_scope.

(* ================================================================== *)
(** * The Go runtime used by the package *)
(* ================================================================== *)

Module Go.

(** ** [strings] *)

(** [strings.HasSuffix(s, suffix)]:
    [len(s) >= len(suffix) && s[len(s)-len(suffix):] == suffix]. *)
Definition strings_HasSuffix (s suffix : string) : bool :=
  (String.length suffix <=? String.length s)%nat &&
  String.eqb
    (substring (String.length s - String.length suffix)
               (String.length suffix) s)
    suffix.

(** [strings.TrimSuffix(s, suffix)]: [s] without the trailing [suffix],
    or [s] itself when it does not end in [suffix]. *)
Definition strings_TrimSuffix (s suffix : string) : string :=
  if strings_HasSuffix s suffix
  then substring 0 (String.length s - String.length suffix) s
  else s.

(** [strings.Split(s, "/")]. *)
Fixpoint split_slash (s : string) : list string :=
  match s with
  | EmptyString => [""]
  | String c s' =>
      if Ascii.eqb c "/"%char then "" :: split_slash s'
      else match split_slash s' with
           | h :: t => String c h :: t
           | [] => [String c ""]
           end
  end.

(** [strings.Join(elems, "/")]. *)
Fixpoint join_slash (elems : list string) : string :=
  match elems with
  | [] => ""
  | [e] => e
  | e :: rest => e ++ "/" ++ join_slash rest
  end.

(** ** [path] *)

(** One step of [path.Clean] on a path element.  [out] is the stack of
    elements kept so far, last one first.  Empty and [.] elements are
    dropped; [..] removes the last kept element when there is one that is
    not itself [..], is dropped at the root of a rooted path, and is kept
    otherwise. *)
Definition clean_step (rooted : bool) (out : list string) (c : string)
  : list string :=
  if String.eqb c "" || String.eqb c "." then out
  else if String.eqb c ".." then
    match out with
    | top :: rest => if String.eqb top ".." then c :: out else rest
    | [] => if rooted then [] else [c]
    end
  else c :: out.

(** [path.Clean]: the shortest path equivalent to [p] by purely lexical
    processing; the empty string becomes ["."]. *)
Definition path_Clean (p : string) : string :=
  if String.eqb p "" then "."
  else
    let rooted := prefix "/" p in
    let body :=
      join_slash (rev (fold_left (clean_step rooted) (split_slash p) [])) in
    if rooted then "/" ++ body
    else if String.eqb body "" then "." else body.

(** [path.Join]: the leading empty elements are ignored, the others are
    joined with a slash and the result is cleaned; all-empty gives [""]. *)
Fixpoint drop_empty (elems : list string) : list string :=
  match elems with
  | [] => []
  | e :: rest => if String.eqb e "" then drop_empty rest else elems
  end.

Definition path_Join (elems : list string) : string :=
  match drop_empty elems with
  | [] => ""
  | es => path_Clean (join_slash es)
  end.

(** [path.Base], used by [template.ParseFiles] to name the template. *)
Definition path_Base (p : string) : string :=
  match rev (filter (fun c => negb (String.eqb c "")) (split_slash p)) with
  | [] => if String.eqb p "" then "." else "/"
  | c :: _ => c
  end.

(** ** Errors *)

Inductive Errno : Type :=
  ENOENT | EEXIST | ENOTDIR | EISDIR | EACCES | EBADF.

(** A Go [error] value that is not [nil]: an [*os.PathError] or any other
    error (template errors, errors of a caller's own copy function). *)
Inductive error : Type :=
| PathError (Op Path : string) (Err : Errno)
| ErrorString (msg : string).

(** [os.IsExist]. *)
Definition os_IsExist (err : option error) : bool :=
  match err with
  | Some (PathError _ _ EEXIST) => true
  | _ => false
  end.

(** A Go result [(v, err)] of which exactly one part is meaningful. *)
Inductive result (A : Type) : Type :=
| Ok (v : A)
| Fail (err : error).
Arguments Ok {A} v.
Arguments Fail {A} err.

(** ** The file system *)

(** A node of the directory tree.  A directory lists its entries in the
    order [Readdir] reports them. *)
Inductive node : Type :=
| Reg (perm : Z) (data : list byte)
| Dir (perm : Z) (entries : list (string * node)).

Definition perm_of (n : node) : Z :=
  match n with Reg m _ => m | Dir m _ => m end.

(** Owner permission bits; the process owns every node and is not root. *)
Definition readable (m : Z) : bool := Z.testbit m 8.   (* 0400 *)
Definition writable (m : Z) : bool := Z.testbit m 7.   (* 0200 *)
Definition searchable (m : Z) : bool := Z.testbit m 6. (* 0100 *)

Definition umask : Z := 18. (* 022 *)
Definition apply_umask (m : Z) : Z := Z.land m (Z.lnot umask).

Definition ModeDir : Z := Z.shiftl 1 31.
Definition ModeSticky : Z := Z.shiftl 1 20.
Definition ModePerm : Z := 511. (* 0777 *)

(** The mode [mkdir(2)] is given for a Go [FileMode] and keeps: the nine
    permission bits and the sticky bit, which the kernel stores as
    01000. *)
Definition mkdir_mode (perm : Z) : Z :=
  Z.lor (Z.land perm ModePerm) (if Z.testbit perm 20 then 512 else 0).

(** The Go [FileMode] of stored mode bits. *)
Definition file_mode (m : Z) : Z :=
  Z.lor (Z.land m ModePerm) (if Z.testbit m 9 then ModeSticky else 0).

Fixpoint assoc (k : string) (es : list (string * node)) : option node :=
  match es with
  | [] => None
  | (k', n) :: rest => if String.eqb k k' then Some n else assoc k rest
  end.

(** Replace the entry named [k], or add it after the existing ones. *)
Fixpoint upsert (k : string) (v : node) (es : list (string * node))
  : list (string * node) :=
  match es with
  | [] => [(k, v)]
  | (k', n) :: rest =>
      if String.eqb k k' then (k, v) :: rest else (k', n) :: upsert k v rest
  end.

(** A location is the list of names from the root to a node. *)
Definition loc : Type := list string.

Fixpoint lookup (p : loc) (n : node) : option node :=
  match p with
  | [] => Some n
  | c :: p' =>
      match n with
      | Dir _ es =>
          match assoc c es with
          | Some n' => lookup p' n'
          | None => None
          end
      | Reg _ _ => None
      end
  end.

(** [put p new n]: the tree [n] with the node at [p] replaced by [new],
    or with [new] added when only the parent of [p] exists.  Nothing
    changes when the parent of [p] is missing or is not a directory. *)
Fixpoint put (p : loc) (new : node) (n : node) : node :=
  match p with
  | [] => new
  | c :: p' =>
      match n with
      | Dir m es =>
          match assoc c es with
          | Some n' => Dir m (upsert c (put p' new n') es)
          | None =>
              match p' with
              | [] => Dir m (upsert c new es)
              | _ :: _ => n
              end
          end
      | Reg _ _ => n
      end
  end.

(** The kernel's path walk, from the root (the working directory of the
    process is the root, so relative and absolute names agree).  Before
    each element is consumed the current location must be a directory
    that may be searched.  The last element named is not inspected: it
    may be missing. *)
Fixpoint walk (cs : list string) (cur : loc) (root : node) : Errno + loc :=
  match cs with
  | [] => inr cur
  | c :: cs' =>
      match lookup cur root with
      | Some (Dir m _) =>
          if searchable m then
            if String.eqb c "" || String.eqb c "." then walk cs' cur root
            else if String.eqb c ".." then walk cs' (removelast cur) root
            else walk cs' (cur ++ [c])%list root
          else inl EACCES
      | Some (Reg _ _) => inl ENOTDIR
      | None => inl ENOENT
      end
  end.

Definition resolve (name : string) (root : node) : Errno + loc :=
  if String.eqb name "" then inl ENOENT
  else walk (split_slash name) [] root.

(** ** System calls, with their trace *)

(** [EvRead] is taking the bytes of an open file and [EvWrite] putting
    bytes into one, by [read] and [write] or by a copy inside the
    kernel. *)
Inductive Event : Type :=
| EvOpen (name : string)
| EvReaddir (name : string)
| EvClose (name : string)
| EvMkdir (name : string) (mode : Z)
| EvCreate (name : string)
| EvRead (name : string)
| EvWrite (name : string) (data : list byte).

(** A computation reads and writes the file system and emits the events
    of the calls it made; [None] is a computation that did not finish
    within the recursion budget it was given. *)
Definition M (A : Type) : Type := node -> option (A * node * list Event).

Definition ret {A} (a : A) : M A := fun fs => Some (a, fs, []).

Definition bind {A B} (m : M A) (k : A -> M B) : M B :=
  fun fs =>
    match m fs with
    | None => None
    | Some (a, fs1, tr1) =>
        match k a fs1 with
        | None => None
        | Some (b, fs2, tr2) => Some (b, fs2, (tr1 ++ tr2)%list)
        end
    end.

Definition emit (e : Event) : M unit := fun fs => Some (tt, fs, [e]).

Definition diverge {A} : M A := fun _ => None.

Declare Scope io_scope.
Delimit Scope io_scope with io.
Notation "x <- m ;; k" := (bind m (fun x => k))
  (at level 61, m at next level, right associativity) : io_scope.
Notation "' pat <- m ;; k" :=
  (bind m (fun x => match x with pat => k end))
  (at level 61, pat pattern, m at next level, right associativity) : io_scope.
Notation "m ;; k" := (bind m (fun _ => k))
  (at level 61, right associativity) : io_scope.

(** The [range] loop over a slice. *)
Fixpoint for_each {A} (xs : list A) (body : A -> M unit) : M unit :=
  match xs with
  | [] => ret tt
  | x :: rest => (body x ;; for_each rest body)%io
  end.

(** An open file, [*os.File]: the name it was opened under and the node
    it refers to. *)
Record File : Type := { f_name : string; f_loc : loc }.

(** [os.FileInfo] as [Readdir] fills it in. *)
Record FileInfo : Type := {
  Name : string;
  Size : Z;
  Mode : Z
}.

(** [fi.IsDir()], that is [fi.Mode()&ModeDir != 0]. *)
Definition IsDir (fi : FileInfo) : bool := Z.testbit (Mode fi) 31.

(** [lstat] of a node.  The size of a directory depends on the file
    system and is left at 0. *)
Definition stat (name : string) (n : node) : FileInfo :=
  match n with
  | Reg m data =>
      {| Name := name; Size := Z.of_nat (List.length data);
         Mode := file_mode m |}
  | Dir m _ =>
      {| Name := name; Size := 0;
         Mode := Z.lor ModeDir (file_mode m) |}
  end.

(** [os.Open(name)]: open for reading. *)
Definition os_Open (name : string) : M (result File) :=
  fun fs =>
    Some (match resolve name fs with
          | inl errno => Fail (PathError "open" name errno)
          | inr p =>
              match lookup p fs with
              | None => Fail (PathError "open" name ENOENT)
              | Some n =>
                  if readable (perm_of n)
                  then Ok {| f_name := name; f_loc := p |}
                  else Fail (PathError "open" name EACCES)
              end
          end, fs, [EvOpen name]).

(** [f.Readdir(0)]: every entry of the directory, in directory order.
    The names are read from the directory and each one is then
    [lstat]ed, which needs the search bit of the directory: without it
    the first [lstat] fails and no entry is returned. *)
Definition File_Readdir (f : File) : M (list FileInfo * option error) :=
  fun fs =>
    Some (match lookup (f_loc f) fs with
          | Some (Dir m es) =>
              match es with
              | [] => ([], None)
              | (k, _) :: _ =>
                  if searchable m
                  then (map (fun e => stat (fst e) (snd e)) es, None)
                  else ([], Some (PathError "fstatat"
                                    (f_name f ++ "/" ++ k) EACCES))
              end
          | Some (Reg _ _) =>
              ([], Some (PathError "readdirent" (f_name f) ENOTDIR))
          | None => ([], Some (PathError "readdirent" (f_name f) EBADF))
          end, fs, [EvReaddir (f_name f)]).

(** [f.Close()]. *)
Definition File_Close (f : File) : M unit := emit (EvClose (f_name f)).

(** [os.Mkdir(name, perm)]. *)
Definition os_Mkdir (name : string) (perm : Z) : M (option error) :=
  fun fs =>
    match resolve name fs with
    | inl errno => Some (Some (PathError "mkdir" name errno), fs,
                         [EvMkdir name perm])
    | inr p =>
        match lookup p fs with
        | Some _ => Some (Some (PathError "mkdir" name EEXIST), fs,
                          [EvMkdir name perm])
        | None =>
            match lookup (removelast p) fs with
            | Some (Dir m _) =>
                if writable m
                then Some (None,
                           put p (Dir (apply_umask (mkdir_mode perm)) []) fs,
                           [EvMkdir name perm])
                else Some (Some (PathError "mkdir" name EACCES), fs,
                           [EvMkdir name perm])
            | _ => Some (Some (PathError "mkdir" name ENOENT), fs,
                         [EvMkdir name perm])
            end
        end
    end.

(** Whether [name] ends in a slash after the name of something that is
    missing from a directory that is there: [open(2)] with [O_CREAT]
    answers [EISDIR] to such a name, not [ENOENT]. *)
Fixpoint drop_last_empty (cs : list string) : list string :=
  match cs with
  | [] => []
  | c :: rest =>
      match drop_last_empty rest with
      | [] => if String.eqb c "" then [] else [c]
      | rest' => c :: rest'
      end
  end.

Definition names_missing_directory (name : string) (fs : node) : bool :=
  strings_HasSuffix name "/" &&
  match walk (drop_last_empty (split_slash name)) [] fs with
  | inr p => match lookup p fs with None => true | Some _ => false end
  | inl _ => false
  end.

Definition create_errno (name : string) (fs : node) (errno : Errno) : Errno :=
  match errno with
  | ENOENT => if names_missing_directory name fs then EISDIR else ENOENT
  | _ => errno
  end.

(** [os.Create(name)]: [OpenFile(name, O_RDWR|O_CREATE|O_TRUNC, 0666)]. *)
Definition os_Create (name : string) : M (result File) :=
  fun fs =>
    match resolve name fs with
    | inl errno =>
        Some (Fail (PathError "open" name (create_errno name fs errno)), fs,
              [EvCreate name])
    | inr p =>
        match lookup p fs with
        | Some (Dir _ _) => Some (Fail (PathError "open" name EISDIR), fs,
                                  [EvCreate name])
        | Some (Reg m _) =>
            if readable m && writable m
            then Some (Ok {| f_name := name; f_loc := p |},
                       put p (Reg m []) fs, [EvCreate name])
            else Some (Fail (PathError "open" name EACCES), fs,
                       [EvCreate name])
        | None =>
            match lookup (removelast p) fs with
            | Some (Dir m _) =>
                if writable m
                then Some (Ok {| f_name := name; f_loc := p |},
                           put p (Reg (apply_umask 438) []) fs,
                           [EvCreate name])
                else Some (Fail (PathError "open" name EACCES), fs,
                           [EvCreate name])
            | _ => Some (Fail (PathError "open" name ENOENT), fs,
                         [EvCreate name])
            end
        end
    end.

(** Read an open file to its end. *)
Definition File_ReadAll (f : File) : M (result (list byte)) :=
  fun fs =>
    Some (match lookup (f_loc f) fs with
          | Some (Reg _ data) => Ok data
          | Some (Dir _ _) => Fail (PathError "read" (f_name f) EISDIR)
          | None => Fail (PathError "read" (f_name f) EBADF)
          end, fs, [EvRead (f_name f)]).

(** [f.Write(b)] on a file opened by [os.Create] and written by this
    handle only: the bytes go after those already written. *)
Definition File_Write (f : File) (b : list byte) : M (option error) :=
  fun fs =>
    match lookup (f_loc f) fs with
    | Some (Reg m old) =>
        Some (None, put (f_loc f) (Reg m (old ++ b)%list) fs,
              [EvWrite (f_name f) b])
    | _ => Some (Some (PathError "write" (f_name f) EBADF), fs,
                 [EvWrite (f_name f) b])
    end.

(** The error of a copy whose source cannot be read.  Between two
    files [io.Copy] has the kernel move the bytes, and a source that is
    a directory is reported as a failed write to the destination. *)
Definition copy_error (dst : File) (e : error) : error :=
  match e with
  | PathError _ _ EISDIR => PathError "write" (f_name dst) EISDIR
  | _ => e
  end.

(** [io.Copy(dst, src)]: read [src] to the end and write it to [dst];
    returns the number of bytes written and the first error.  A source
    without bytes is recorded as a write of no bytes. *)
Definition io_Copy (dst src : File) : M (Z * option error) :=
  (r <- File_ReadAll src ;;
   match r with
   | Fail e => ret (0, Some (copy_error dst e))
   | Ok data =>
       err <- File_Write dst data ;;
       match err with
       | Some e => ret (0, Some e)
       | None => ret (Z.of_nat (List.length data), None)
       end
   end)%io.

(** [os.ReadFile(name)], as [template.ParseFiles] reads its argument. *)
Definition os_ReadFile (name : string) : M (result (list byte)) :=
  (r <- os_Open name ;;
   match r with
   | Fail e => ret (Fail e)
   | Ok f => r <- File_ReadAll f ;; File_Close f ;; ret r
   end)%io.

(** The bytes of the regular file called [name], if there is one. *)
Definition file_bytes (name : string) (fs : node) : option (list byte) :=
  match resolve name fs with
  | inr p => match lookup p fs with
             | Some (Reg _ data) => Some data
             | _ => None
             end
  | inl _ => None
  end.

(** Whether [name] is a directory. *)
Definition is_dir (name : string) (fs : node) : bool :=
  match resolve name fs with
  | inr p => match lookup p fs with
             | Some (Dir _ _) => true
             | _ => false
             end
  | inl _ => false
  end.

Definition exists_at (name : string) (fs : node) : bool :=
  match resolve name fs with
  | inr p => match lookup p fs with Some _ => true | None => false end
  | inl _ => false
  end.

End Go.

Import Go.
Open Scope io_scope.

(* ================================================================== *)
(** * The package: what both revisions share *)
(* ================================================================== *)

Module Common.
Section Package.

(** The dynamic type of [CopyData], Go's [interface{}]; [None] is [nil]. *)
Variable Data : Type.

(** A copy function, the type of the field [CopyFunc].  Its third
    argument is an interface value and may be [nil]. *)
Definition CopyFuncT : Type :=
  string -> string -> option FileInfo -> option Data -> M (option error).

Record Translator : Type := {
  Source : string;
  Target : string;
  ExcludeDir : FileInfo -> bool;
  ExcludeFile : FileInfo -> bool;
  DirMode : Z;
  CopyFunc : CopyFuncT;
  CopyData : option Data
}.

Definition ExcludeNone (fi : FileInfo) : bool := false.

(** [ColdCopy]: open [source], create [target], copy; [fi] and [data]
    are not used.  The deferred [Close] calls run when the function
    returns, the last deferred first. *)
Definition ColdCopy (source target : string) (fi : option FileInfo)
    (data : option Data) : M (option error) :=
  r <- os_Open source ;;
  match r with
  | Fail err => ret (Some err)
  | Ok in_ =>
      r <- os_Create target ;;
      match r with
      | Fail err => File_Close in_ ;; ret (Some err)
      | Ok out =>
          '(_, err) <- io_Copy out in_ ;;
          File_Close out ;;
          File_Close in_ ;;
          ret err
      end
  end.

Definition New (source target : string) : Translator :=
  {| Source := path_Clean source;
     Target := path_Clean target;
     ExcludeDir := ExcludeNone;
     ExcludeFile := ExcludeNone;
     DirMode := 493; (* 0755 *)
     CopyFunc := ColdCopy;
     CopyData := None |}.

(** [GetChildren]: the [FileInfo]s of a directory. *)
Definition GetChildren (path : string) : M (list FileInfo * option error) :=
  r <- os_Open path ;;
  match r with
  | Fail err => ret ([], Some err)
  | Ok f =>
      r <- File_Readdir f ;;
      File_Close f ;;
      ret r
  end.

Definition CopyFile (t : Translator) (subpath : string) (fi : FileInfo)
  : M (option error) :=
  if negb (ExcludeFile t fi) then
    CopyFunc t (path_Join [Source t; subpath])
               (path_Join [Target t; subpath])
               (Some fi) (CopyData t)
  else ret None.

(** A translator with one field replaced. *)
Definition with_ExcludeDir (f : FileInfo -> bool) (t : Translator)
  : Translator :=
  {| Source := Source t; Target := Target t;
     ExcludeDir := f; ExcludeFile := ExcludeFile t;
     DirMode := DirMode t; CopyFunc := CopyFunc t; CopyData := CopyData t |}.

Definition with_ExcludeFile (f : FileInfo -> bool) (t : Translator)
  : Translator :=
  {| Source := Source t; Target := Target t;
     ExcludeDir := ExcludeDir t; ExcludeFile := f;
     DirMode := DirMode t; CopyFunc := CopyFunc t; CopyData := CopyData t |}.

Definition with_CopyFunc (f : CopyFuncT) (t : Translator) : Translator :=
  {| Source := Source t; Target := Target t;
     ExcludeDir := ExcludeDir t; ExcludeFile := ExcludeFile t;
     DirMode := DirMode t; CopyFunc := f; CopyData := CopyData t |}.

Definition with_CopyData (d : option Data) (t : Translator) : Translator :=
  {| Source := Source t; Target := Target t;
     ExcludeDir := ExcludeDir t; ExcludeFile := ExcludeFile t;
     DirMode := DirMode t; CopyFunc := CopyFunc t; CopyData := d |}.

(** The body of the loop of [CopyDir], the same in both revisions: a
    directory is handed to [copyDir] and a file to [CopyFile], and what
    either returns is dropped. *)
Definition copy_child (copyDir : string -> M (option error))
    (t : Translator) (subpath : string) (child : FileInfo) : M unit :=
  if IsDir child then
    copyDir (path_Join [subpath; Name child]) ;; ret tt
  else
    CopyFile t (path_Join [subpath; Name child]) child ;; ret tt.

End Package.

Arguments Source {Data} t.
Arguments Target {Data} t.
Arguments ExcludeDir {Data} t fi.
Arguments ExcludeFile {Data} t fi.
Arguments DirMode {Data} t.
Arguments CopyFunc {Data} t source target fi data.
Arguments CopyData {Data} t.
Arguments ColdCopy {Data} source target fi data.
Arguments New {Data} source target.
Arguments CopyFile {Data} t subpath fi.
Arguments with_ExcludeDir {Data} f t.
Arguments with_ExcludeFile {Data} f t.
Arguments with_CopyFunc {Data} f t.
Arguments with_CopyData {Data} d t.
Arguments copy_child {Data} copyDir t subpath child.

End Common.

Import Common.

(* ================================================================== *)
(** * Revision A: src/staticdir.go *)
(* ================================================================== *)

Module RevA.
Section Package.
Variable Data : Type.

(** [Translate] of this revision returns [nil] at once. *)
Definition Translate (t : Translator Data) : M (option error) :=
  ret None.

(** [CopyDir]: every failure of [os.Mkdir] is returned.  [fuel] bounds
    the depth of the recursion. *)
Fixpoint CopyDir (fuel : nat) (t : Translator Data) (subpath : string)
  : M (option error) :=
  match fuel with
  | O => diverge
  | S fuel' =>
      '(children, err) <- GetChildren (path_Join [Source t; subpath]) ;;
      match err with
      | Some _ => ret err
      | None =>
          err <- os_Mkdir (path_Join [Target t; subpath]) (DirMode t) ;;
          match err with
          | Some _ => ret err
          | None =>
              for_each children
                (copy_child (CopyDir fuel' t) t subpath) ;;
              ret None
          end
      end
  end.

End Package.
Arguments Translate {Data} t.
Arguments CopyDir {Data} fuel t subpath.
End RevA.

(* ================================================================== *)
(** * Revision B: src/unnamed/part_000 *)
(* ================================================================== *)

Module RevB.
Section Package.
Variable Data : Type.

(** [CopyDir]: a failure of [os.Mkdir] is returned unless it is of the
    "already exists" class.  [fuel] bounds the depth of the recursion. *)
Fixpoint CopyDir (fuel : nat) (t : Translator Data) (subpath : string)
  : M (option error) :=
  match fuel with
  | O => diverge
  | S fuel' =>
      '(children, err) <- GetChildren (path_Join [Source t; subpath]) ;;
      match err with
      | Some _ => ret err
      | None =>
          err <- os_Mkdir (path_Join [Target t; subpath]) (DirMode t) ;;
          if match err with Some _ => true | None => false end
             && negb (os_IsExist err)
          then ret err
          else
            for_each children
              (copy_child (CopyDir fuel' t) t subpath) ;;
            ret None
      end
  end.

(** [Translate] starts the walk at the root of the source tree. *)
Definition Translate (fuel : nat) (t : Translator Data) : M (option error) :=
  CopyDir fuel t "".

(** ** [TemplateCopy] and the template engine *)

(** [html/template] is outside the package.  A parsed template is a
    value of [Template]; [template_Parse name text] parses the text of
    the file called [name], and [template_Render tmpl data] is what
    [Execute] writes and the error it stops on, if any. *)
Variable Template : Type.
Variable template_Parse : string -> list byte -> result Template.
Variable template_Render : Template -> option Data -> list byte * option error.

(** [template.ParseFiles(name)]: read the file, then parse it. *)
Definition template_ParseFiles (name : string) : M (result Template) :=
  r <- os_ReadFile name ;;
  match r with
  | Fail err => ret (Fail err)
  | Ok text => ret (template_Parse (path_Base name) text)
  end.

(** [tmpl.Execute(out, data)]. *)
Definition Template_Execute (tmpl : Template) (out : File)
    (data : option Data) : M (option error) :=
  let '(text, err) := template_Render tmpl data in
  werr <- File_Write out text ;;
  match werr with
  | Some _ => ret werr
  | None => ret err
  end.

Definition TemplateCopy (source target : string) (fi : option FileInfo)
    (data : option Data) : M (option error) :=
  if negb (strings_HasSuffix source ".tmpl") then
    ColdCopy (Data:=Data) source target None None
  else
    let target := strings_TrimSuffix target ".tmpl" in
    r <- os_Create target ;;
    match r with
    | Fail err => ret (Some err)
    | Ok out =>
        r <- template_ParseFiles source ;;
        match r with
        | Fail err => File_Close out ;; ret (Some err)
        | Ok tmpl =>
            err <- Template_Execute tmpl out data ;;
            File_Close out ;;
            ret err
        end
    end.

End Package.
Arguments CopyDir {Data} fuel t subpath.
Arguments Translate {Data} fuel t.
Arguments template_ParseFiles {Template} template_Parse name.
Arguments Template_Execute {Data Template} template_Render tmpl out data.
Arguments TemplateCopy {Data Template} template_Parse template_Render
  source target fi data.
End RevB.

(* ================================================================== *)
(** * Vocabulary of the statements *)
(* ================================================================== *)

(** [fs'] keeps the directories of [fs]. *)
Definition keeps_dirs (fs fs' : node) : Prop :=
  forall q m es,
    lookup q fs = Some (Dir m es) ->
    exists es', lookup q fs' = Some (Dir m es').

(** Whether [CopyDir] returns the result of [os.Mkdir]: always when it
    is an error in revision A, and only when the error is not of the
    "already exists" class in revision B. *)
Definition fatal_A (err : option error) : bool :=
  match err with Some _ => true | None => false end.

Definition fatal_B (err : option error) : bool :=
  match err with Some _ => true | None => false end && negb (os_IsExist err).

(** The events of listing the directory [src]: the open failed, or the
    directory was opened, read and closed. *)
Definition listing_trace (src : string) (tr : list Event) : Prop :=
  tr = [EvOpen src] \/ tr = [EvOpen src; EvReaddir src; EvClose src].

(** The order of the steps of one call of [CopyDir]: the listing, then
    [os.Mkdir], then the loop over the children, which starts in the
    file system [os.Mkdir] left.  When the listing fails its error is
    returned, the file system is as before and the trace holds the
    events of the listing only. *)
Definition CopyDir_steps {Data : Type} (fatal : option error -> bool)
    (copyDir : nat -> Translator Data -> string -> M (option error)) : Prop :=
  forall fuel t subpath fs,
    let src := path_Join [Source t; subpath] in
    let tgt := path_Join [Target t; subpath] in
    exists children lerr ltr,
      GetChildren src fs = Some ((children, lerr), fs, ltr) /\
      listing_trace src ltr /\
      match lerr with
      | Some e => copyDir (S fuel) t subpath fs = Some (Some e, fs, ltr)
      | None =>
          exists merr fs2,
            os_Mkdir tgt (DirMode t) fs =
              Some (merr, fs2, [EvMkdir tgt (DirMode t)]) /\
            match merr with
            | None => is_dir tgt fs2 = true
            | Some _ => fs2 = fs
            end /\
            copyDir (S fuel) t subpath fs =
              if fatal merr
              then Some (merr, fs2, (ltr ++ [EvMkdir tgt (DirMode t)])%list)
              else
                match for_each children
                        (copy_child (copyDir fuel t) t subpath) fs2 with
                | None => None
                | Some (_, fs', rest) =>
                    Some (None, fs',
                          (ltr ++ EvMkdir tgt (DirMode t) :: rest)%list)
                end
      end.

(** The names a trace closes, in the order it closes them. *)
Fixpoint closes (tr : list Event) : list string :=
  match tr with
  | [] => []
  | EvClose name :: rest => name :: closes rest
  | _ :: rest => closes rest
  end.

(** Whether [os.Open], or [os.Create], of a name succeeds. *)
Definition opens_ok (name : string) (fs : node) : bool :=
  match os_Open name fs with
  | Some (Ok _, _, _) => true
  | _ => false
  end.

Definition creates_ok (name : string) (fs : node) : bool :=
  match os_Create name fs with
  | Some (Ok _, _, _) => true
  | _ => false
  end.

Definition node_is_dir (n : node) : bool :=
  match n with Dir _ _ => true | Reg _ _ => false end.

(** What one copy from [source] to [target] may do: open, read and
    close the source; create, write and close the target. *)
Definition copy_event (source target : string) (ev : Event) : Prop :=
  match ev with
  | EvOpen name | EvRead name => name = source
  | EvCreate name | EvWrite name _ => name = target
  | EvClose name => name = source \/ name = target
  | EvReaddir _ | EvMkdir _ _ => False
  end.

(** A copy function that removes no directory and changes the
    permission bits of none. *)
Definition copy_keeps_dirs {Data : Type} (f : CopyFuncT Data) : Prop :=
  forall source target fi data fs res fs' tr,
    f source target fi data fs = Some (res, fs', tr) -> keeps_dirs fs fs'.



(** [q] is [p] or a location above [p]. *)
Fixpoint is_prefix (q p : loc) : bool :=
  match q, p with
  | [], _ => true
  | c :: q', c' :: p' => String.eqb c c' && is_prefix q' p'
  | _ :: _, [] => false
  end.

(** [fs'] is [fs] but for the regular file at [pt]: there was no
    directory at [pt], and [fs'] has a regular file there, with the
    permission bits of the file that was there, or 0644 for a new one.
    Every node that is neither at [pt] nor above it is the same in
    both. *)
Definition only_file_changed (pt : loc) (fs fs' : node) : Prop :=
  (forall m es, lookup pt fs <> Some (Dir m es)) /\
  (exists m bytes,
     fs' = put pt (Reg m bytes) fs /\
     match lookup pt fs with
     | Some (Reg m0 _) => m = m0
     | _ => m = apply_umask 438
     end) /\
  (forall q, is_prefix q pt = false -> lookup q fs' = lookup q fs).

(** ** Names that lie under a root

    A name, read as a list of path elements: [comps] drops the empty
    elements and the [.] elements that [path.Clean] drops. *)
Fixpoint has_slash (s : string) : bool :=
  match s with
  | EmptyString => false
  | String c s' => Ascii.eqb c "/"%char || has_slash s'
  end.

Definition rooted (p : string) : bool :=
  match p with
  | String c _ => Ascii.eqb c "/"%char
  | EmptyString => false
  end.

Definition kept (c : string) : bool :=
  negb (String.eqb c "" || String.eqb c ".").

Definition comps (p : string) : list string := filter kept (split_slash p).

(** No element of the name is [..]. *)
Definition no_dotdot (p : string) : bool :=
  forallb (fun c => negb (String.eqb c "..")) (split_slash p).

(** What the name of a directory entry can be: not empty, not [.] or
    [..], and without a slash. *)
Definition proper (c : string) : bool :=
  kept c && negb (String.eqb c "..") && negb (has_slash c).

(** [name] lies under [root]: both are absolute or both relative, the
    elements of [root] are the first elements of [name], and [name] has
    no [..] that could lead out again. *)
Definition inside (root name : string) : bool :=
  Bool.eqb (rooted name) (rooted root) &&
  is_prefix (comps root) (comps name) && no_dotdot name.

(** A list of path elements as [comps] gives them. *)
Definition good (cs : list string) : Prop :=
  Forall (fun c => kept c = true /\ has_slash c = false /\
                   String.eqb c ".." = false) cs.

(** Every entry of every directory of the tree has a proper name. *)
Fixpoint names_proper (n : node) : bool :=
  match n with
  | Reg _ _ => true
  | Dir _ es => forallb (fun e => proper (fst e) && names_proper (snd e)) es
  end.

(** What a walk with [ColdCopy] may do: read under the source, write
    under the target, and make directories there with [DirMode]. *)
Definition confined_event {Data : Type} (t : Translator Data) (ev : Event)
  : Prop :=
  match ev with
  | EvOpen name | EvReaddir name | EvRead name =>
      inside (Source t) name = true
  | EvMkdir name mode => inside (Target t) name = true /\ mode = DirMode t
  | EvCreate name | EvWrite name _ => inside (Target t) name = true
  | EvClose name =>
      inside (Source t) name = true \/ inside (Target t) name = true
  end.

(* ================================================================== *)
(** * Example inputs *)
(* ================================================================== *)

Module Demo.

Definition bytes (s : string) : list byte := list_byte_of_string s.

(** A source tree [src] with a file nobody may read, a file, and a
    directory with a file in it; no target tree yet. *)
Definition src_tree : node :=
  Dir 493 [("a.txt", Reg 0 (bytes "A"));
           ("b.txt", Reg 420 (bytes "B"));
           ("d", Dir 493 [("f", Reg 420 (bytes "F"))])].

Definition fs0 : node := Dir 493 [("src", src_tree)].

(** The same with an empty target directory [out] already there. *)
Definition fs_out : node := Dir 493 [("src", src_tree); ("out", Dir 493 [])].

(** What the walk of [fs0] into [out] leaves behind. *)
Definition fs_copied : node :=
  Dir 493 [("src", src_tree);
           ("out", Dir 493 [("b.txt", Reg 420 (bytes "B"));
                            ("d", Dir 493 [("f", Reg 420 (bytes "F"))])])].

Definition t0 : Translator (list byte) := New "src" "out".

(** A translator that excludes every directory. *)
Definition t_excl : Translator (list byte) :=
  with_ExcludeDir (fun _ => true) t0.

(** A small template engine: a text with an opening brace does not
    parse; a template renders as its text followed by the user data. *)
Definition toy_Parse (name : string) (text : list byte)
  : result (list byte) :=
  if existsb (Byte.eqb "{"%byte) text
  then Fail (ErrorString ("template: " ++ name ++ ": unexpected {"))
  else Ok text.

Definition toy_Render (tmpl : list byte) (data : option (list byte))
  : list byte * option error :=
  match data with
  | Some d => ((tmpl ++ d)%list, None)
  | None => (tmpl, Some (ErrorString "template: no data"))
  end.

(** A tree with two templates, one of which does not parse, and an old
    rendering of the latter. *)
Definition fs_tmpl : node :=
  Dir 493 [("src", Dir 493 [("page.html.tmpl", Reg 420 (bytes "Hello, "));
                            ("bad.html.tmpl", Reg 420 (bytes "{{"));
                            ("readme.txt", Reg 420 (bytes "read me"))]);
           ("out", Dir 493 [("bad.html", Reg 420 (bytes "old"))])].

(** The metadata [Readdir] reports for the children of [src]. *)
Definition fi_a : FileInfo := stat "a.txt" (Reg 0 (bytes "A")).
Definition fi_b : FileInfo := stat "b.txt" (Reg 420 (bytes "B")).
Definition fi_d : FileInfo := stat "d" (Dir 493 [("f", Reg 420 (bytes "F"))]).

(** The system calls of the walk of [fs0] into [out]. *)
Definition walk_trace : list Event :=
  [EvOpen "src"; EvReaddir "src"; EvClose "src"; EvMkdir "out" 493;
   EvOpen "src/a.txt";
   EvOpen "src/b.txt"; EvCreate "out/b.txt"; EvRead "src/b.txt";
   EvWrite "out/b.txt" (bytes "B"); EvClose "out/b.txt"; EvClose "src/b.txt";
   EvOpen "src/d"; EvReaddir "src/d"; EvClose "src/d"; EvMkdir "out/d" 493;
   EvOpen "src/d/f"; EvCreate "out/d/f"; EvRead "src/d/f";
   EvWrite "out/d/f" (bytes "F"); EvClose "out/d/f"; EvClose "src/d/f"].

(** [fs_tmpl] once [out/bad.html] was created anew. *)
Definition fs_tmpl_truncated : node :=
  Dir 493 [("src", Dir 493 [("page.html.tmpl", Reg 420 (bytes "Hello, "));
                            ("bad.html.tmpl", Reg 420 (bytes "{{"));
                            ("readme.txt", Reg 420 (bytes "read me"))]);
           ("out", Dir 493 [("bad.html", Reg 420 [])])].

Definition parse_error : error :=
  ErrorString "template: bad.html.tmpl: unexpected {".


(** A translator that renders templates with the small engine. *)
Definition t_tmpl : Translator (list byte) :=
  with_CopyData (Some (bytes "world"))
    (with_CopyFunc (RevB.TemplateCopy toy_Parse toy_Render)
       (New "src" "site")).

(** A copy function that fails without doing anything. *)
Definition failing_copy : CopyFuncT (list byte) :=
  fun _ _ _ _ => ret (Some (ErrorString "copy failed")).

End Demo.

(* ================================================================== *)
(** * The path and string functions on examples *)
(* ================================================================== *)

Example Clean_ex1 : path_Clean "a//b/../c/." = "a/c".
Proof. reflexivity. Qed.
Example Clean_ex2 : path_Clean "/../a/b/../././/c" = "/a/c".
Proof. reflexivity. Qed.
Example Clean_ex3 : path_Clean "a/../.." = "..".
Proof. reflexivity. Qed.
Example Clean_ex4 : path_Clean "" = "." /\ path_Clean "/" = "/".
Proof. split; reflexivity. Qed.
Example Clean_ex5 :
  map path_Clean ["abc/../../././../def"; "a/b/../../../c"; "//a"; "/..";
                  "abc/def/../../.."; "/abc/def/../../.."; "a/"] =
  ["../../def"; "../c"; "/a"; "/"; ".."; "/"; "a"].
Proof. reflexivity. Qed.
Example Join_ex1 : path_Join ["src"; ""] = "src".
Proof. reflexivity. Qed.
Example Join_ex2 : path_Join [""; "a/b.txt"] = "a/b.txt".
Proof. reflexivity. Qed.
Example HasSuffix_ex :
  strings_HasSuffix "page.html.tmpl" ".tmpl" = true /\
  strings_TrimSuffix "page.html.tmpl" ".tmpl" = "page.html" /\
  strings_TrimSuffix "readme.txt" ".tmpl" = "readme.txt".
Proof. repeat split; reflexivity. Qed.

(* ================================================================== *)
(** * Facts about the file system model *)
(* ================================================================== *)

Section TreeFacts.

Lemma assoc_upsert_same k v es : assoc k (upsert k v es) = Some v.
Proof.
  induction es as [|[k' n] rest IH]; simpl.
  - now rewrite String.eqb_refl.
  - destruct (String.eqb_spec k k') as [->|Hne]; simpl.
    + now rewrite String.eqb_refl.
    + destruct (String.eqb_spec k k'); [contradiction|exact IH].
Qed.

Lemma assoc_upsert_other k k' v es :
  k <> k' -> assoc k' (upsert k v es) = assoc k' es.
Proof.
  intros Hne. induction es as [|[k0 n] rest IH]; simpl.
  - destruct (String.eqb_spec k' k); [congruence|reflexivity].
  - destruct (String.eqb_spec k k0) as [->|Hk]; simpl.
    + destruct (String.eqb_spec k' k0); [congruence|reflexivity].
    + destruct (String.eqb_spec k' k0); [reflexivity|exact IH].
Qed.

(** Replacing a node that exists. *)
Lemma lookup_put_here new p :
  forall n x, lookup p n = Some x -> lookup p (put p new n) = Some new.
Proof.
  induction p as [|c p' IH]; intros n x H; simpl in *; [reflexivity|].
  destruct n as [m d|m es]; [discriminate|].
  destruct (assoc c es) as [n'|] eqn:Hc; [|discriminate].
  simpl. rewrite assoc_upsert_same. eauto.
Qed.

(** Adding a node under an existing directory. *)
Lemma lookup_put_new new p :
  forall n m es,
    lookup p n = None ->
    lookup (removelast p) n = Some (Dir m es) ->
    lookup p (put p new n) = Some new.
Proof.
  induction p as [|c p' IH]; intros n m es Hnone Hpar; [discriminate|].
  destruct p' as [|c2 p''].
  - simpl in Hpar. injection Hpar as ->. simpl in *.
    destruct (assoc c es) as [n'|] eqn:Hc; [discriminate|].
    simpl. now rewrite assoc_upsert_same.
  - change (removelast (c :: c2 :: p''))
      with (c :: removelast (c2 :: p'')) in Hpar.
    remember (c2 :: p'') as p' eqn:Hp'.
    simpl in Hpar, Hnone |- *.
    destruct n as [m0 d0|m0 es0]; [discriminate|].
    destruct (assoc c es0) as [n'|] eqn:Hc; [|discriminate].
    simpl. rewrite assoc_upsert_same. eapply IH; eauto.
Qed.

(** A regular file elsewhere is not touched by [put], as long as [put]
    does not replace a directory. *)
Lemma lookup_put_frame new p :
  forall q n m d,
    lookup q n = Some (Reg m d) ->
    q <> p ->
    (forall m' es', lookup p n <> Some (Dir m' es')) ->
    lookup q (put p new n) = Some (Reg m d).
Proof.
  induction p as [|c p' IH]; intros q n m d Hq Hne Hnd.
  - simpl in Hnd. destruct n as [m0 d0|m0 es0].
    + destruct q; [congruence|discriminate].
    + exfalso. eapply Hnd; reflexivity.
  - destruct n as [m0 d0|m0 es0]; [exact Hq|].
    destruct q as [|c' q']; [discriminate|].
    simpl in Hq, Hnd |- *.
    destruct (assoc c es0) as [n'|] eqn:Hc.
    + simpl. destruct (String.eqb_spec c c') as [<-|Hcc].
      * rewrite assoc_upsert_same. rewrite Hc in Hq.
        apply IH; [exact Hq|congruence|exact Hnd].
      * rewrite assoc_upsert_other by exact Hcc. exact Hq.
    + destruct p' as [|c2 p'']; [|exact Hq].
      simpl. destruct (String.eqb_spec c c') as [<-|Hcc].
      * rewrite Hc in Hq. discriminate.
      * rewrite assoc_upsert_other by exact Hcc. exact Hq.
Qed.

(** Every directory stays a directory with the same permission bits, as
    long as [put] does not replace a directory. *)
Lemma lookup_put_dir new p :
  forall q n m es,
    lookup q n = Some (Dir m es) ->
    (forall m' es', lookup p n <> Some (Dir m' es')) ->
    exists es', lookup q (put p new n) = Some (Dir m es').
Proof.
  induction p as [|c p' IH]; intros q n m es Hq Hnd.
  - simpl in Hnd. destruct n as [m0 d0|m0 es0].
    + destruct q; discriminate.
    + exfalso. eapply Hnd; reflexivity.
  - destruct n as [m0 d0|m0 es0]; [eauto|].
    simpl in Hnd |- *.
    destruct (assoc c es0) as [n'|] eqn:Hc.
    + destruct q as [|c' q'].
      * simpl in Hq |- *. injection Hq as -> ->. eauto.
      * simpl in Hq |- *. destruct (String.eqb_spec c c') as [<-|Hcc].
        -- rewrite assoc_upsert_same. rewrite Hc in Hq.
           eapply IH; eauto.
        -- rewrite assoc_upsert_other by exact Hcc. eauto.
    + destruct p' as [|c2 p'']; [|eauto].
      destruct q as [|c' q'].
      * simpl in Hq |- *. injection Hq as -> ->. eauto.
      * simpl in Hq |- *. destruct (String.eqb_spec c c') as [<-|Hcc].
        -- rewrite Hc in Hq. discriminate.
        -- rewrite assoc_upsert_other by exact Hcc. eauto.
Qed.

Lemma keeps_dirs_refl fs : keeps_dirs fs fs.
Proof. intros q m es H. eauto. Qed.

Lemma keeps_dirs_trans fs1 fs2 fs3 :
  keeps_dirs fs1 fs2 -> keeps_dirs fs2 fs3 -> keeps_dirs fs1 fs3.
Proof.
  intros H12 H23 q m es H. destruct (H12 _ _ _ H) as [es' H']. eauto.
Qed.

Lemma keeps_dirs_put new p fs :
  (forall m' es', lookup p fs <> Some (Dir m' es')) ->
  keeps_dirs fs (put p new fs).
Proof. intros Hnd q m es Hq. eapply lookup_put_dir; eauto. Qed.

(** A walk that succeeds only looks at directories, so it succeeds with
    the same answer in a tree that keeps them. *)
Lemma walk_keeps fs fs' :
  keeps_dirs fs fs' ->
  forall cs cur p, walk cs cur fs = inr p -> walk cs cur fs' = inr p.
Proof.
  intros Hk. induction cs as [|c cs IH]; intros cur p H; simpl in *.
  - exact H.
  - destruct (lookup cur fs) as [[m d|m es]|] eqn:Hcur; try discriminate.
    destruct (Hk _ _ _ Hcur) as [es' ->].
    destruct (searchable m); [|discriminate].
    destruct (String.eqb c "" || String.eqb c "."); [eauto|].
    destruct (String.eqb c ".."); eauto.
Qed.

Lemma resolve_keeps fs fs' name p :
  keeps_dirs fs fs' -> resolve name fs = inr p -> resolve name fs' = inr p.
Proof.
  unfold resolve. intros Hk H.
  destruct (String.eqb name ""); [discriminate|].
  eapply walk_keeps; eauto.
Qed.

End TreeFacts.

(* ================================================================== *)
(** * Facts about the system calls *)
(* ================================================================== *)

Section SyscallFacts.

Lemma os_Open_total name fs :
  exists r, os_Open name fs = Some (r, fs, [EvOpen name]).
Proof. unfold os_Open. eauto. Qed.

Lemma os_Open_ok name fs f fs1 tr :
  os_Open name fs = Some (Ok f, fs1, tr) ->
  fs1 = fs /\ tr = [EvOpen name] /\ f_name f = name /\
  resolve name fs = inr (f_loc f) /\
  exists n, lookup (f_loc f) fs = Some n.
Proof.
  unfold os_Open. intros H. injection H as H <- <-.
  destruct (resolve name fs) as [e|p] eqn:Hr; [discriminate|].
  destruct (lookup p fs) as [n|] eqn:Hl; [|discriminate].
  destruct (readable (perm_of n)); [|discriminate].
  injection H as <-. simpl. eauto 8.
Qed.

Lemma os_Create_total name fs :
  exists r fs1, os_Create name fs = Some (r, fs1, [EvCreate name]).
Proof.
  unfold os_Create.
  destruct (resolve name fs) as [e|p]; [eauto|].
  destruct (lookup p fs) as [[m d|m es]|]; [|eauto|].
  - destruct (readable m && writable m); eauto.
  - destruct (lookup (removelast p) fs) as [[m d|m es]|]; eauto.
    destruct (writable m); eauto.
Qed.

Lemma os_Create_fail name fs e fs1 tr :
  os_Create name fs = Some (Fail e, fs1, tr) ->
  fs1 = fs /\ tr = [EvCreate name].
Proof.
  unfold os_Create. intros H.
  destruct (resolve name fs) as [e0|p]; [now inversion H|].
  destruct (lookup p fs) as [[m d|m es]|]; [|now inversion H|].
  - destruct (readable m && writable m); now inversion H.
  - destruct (lookup (removelast p) fs) as [[m d|m es]|];
      try now inversion H.
    destruct (writable m); now inversion H.
Qed.

(** After a successful [os.Create] the name leads to an empty regular
    file, no directory was touched, and what was at that place before
    was not a directory. *)
Lemma os_Create_ok name fs out fs1 tr :
  os_Create name fs = Some (Ok out, fs1, tr) ->
  tr = [EvCreate name] /\ f_name out = name /\
  resolve name fs = inr (f_loc out) /\
  (forall m' es', lookup (f_loc out) fs <> Some (Dir m' es')) /\
  exists m, fs1 = put (f_loc out) (Reg m []) fs /\
            lookup (f_loc out) fs1 = Some (Reg m []).
Proof.
  unfold os_Create. intros H.
  destruct (resolve name fs) as [e0|p] eqn:Hr; [now inversion H|].
  destruct (lookup p fs) as [[m d|m es]|] eqn:Hl; [|now inversion H|].
  - destruct (readable m && writable m); inversion H; subst; simpl.
    repeat split; try congruence.
    exists m. split; [reflexivity|]. eapply lookup_put_here; eauto.
  - destruct (lookup (removelast p) fs) as [[m d|m es]|] eqn:Hp;
      try now inversion H.
    destruct (writable m); inversion H; subst; simpl.
    repeat split; try congruence.
    eexists. split; [reflexivity|]. eapply lookup_put_new; eauto.
Qed.

Lemma os_Create_keeps name fs r fs1 tr :
  os_Create name fs = Some (r, fs1, tr) -> keeps_dirs fs fs1.
Proof.
  destruct r as [out|e]; intros H.
  - apply os_Create_ok in H as (_ & _ & _ & Hnd & m & -> & _).
    now apply keeps_dirs_put.
  - apply os_Create_fail in H as [-> _]. apply keeps_dirs_refl.
Qed.

Lemma os_Mkdir_total name perm fs :
  exists err fs1, os_Mkdir name perm fs = Some (err, fs1, [EvMkdir name perm]).
Proof.
  unfold os_Mkdir.
  destruct (resolve name fs) as [e|p]; [eauto|].
  destruct (lookup p fs); [eauto|].
  destruct (lookup (removelast p) fs) as [[m d|m es]|]; eauto.
  destruct (writable m); eauto.
Qed.

Lemma os_Mkdir_fail name perm fs e fs1 tr :
  os_Mkdir name perm fs = Some (Some e, fs1, tr) -> fs1 = fs.
Proof.
  unfold os_Mkdir. intros H.
  destruct (resolve name fs) as [e0|p]; [now inversion H|].
  destruct (lookup p fs); [now inversion H|].
  destruct (lookup (removelast p) fs) as [[m d|m es]|];
    try now inversion H.
  destruct (writable m); now inversion H.
Qed.

(** [os.Mkdir] reports "already exists" exactly when the name leads to a
    node, whatever its kind. *)
Lemma os_Mkdir_exists name perm fs :
  exists_at name fs = true ->
  os_Mkdir name perm fs =
    Some (Some (PathError "mkdir" name EEXIST), fs, [EvMkdir name perm]).
Proof.
  unfold exists_at, os_Mkdir.
  destruct (resolve name fs) as [e|p]; [discriminate|].
  destruct (lookup p fs); [reflexivity|discriminate].
Qed.

(** After a successful [os.Mkdir] the name leads to a directory. *)
Lemma os_Mkdir_ok name perm fs fs1 tr :
  os_Mkdir name perm fs = Some (None, fs1, tr) ->
  is_dir name fs1 = true /\ exists_at name fs = false /\ keeps_dirs fs fs1.
Proof.
  unfold os_Mkdir, is_dir, exists_at. intros H.
  destruct (resolve name fs) as [e0|p] eqn:Hr; [now inversion H|].
  destruct (lookup p fs) eqn:Hl; [now inversion H|].
  destruct (lookup (removelast p) fs) as [[m d|m es]|] eqn:Hp;
    try now inversion H.
  destruct (writable m); inversion H; subst.
  assert (Hk : keeps_dirs fs
                 (put p (Dir (apply_umask (mkdir_mode perm)) []) fs)).
  { apply keeps_dirs_put. intros m' es'. congruence. }
  rewrite (resolve_keeps _ _ _ _ Hk Hr).
  erewrite lookup_put_new by eauto. auto.
Qed.

Lemma File_ReadAll_total f fs :
  exists r, File_ReadAll f fs = Some (r, fs, [EvRead (f_name f)]).
Proof. unfold File_ReadAll. eauto. Qed.

Lemma io_Copy_ok dst src fs n fs1 tr :
  io_Copy dst src fs = Some ((n, None), fs1, tr) ->
  exists ms data md old,
    lookup (f_loc src) fs = Some (Reg ms data) /\
    lookup (f_loc dst) fs = Some (Reg md old) /\
    fs1 = put (f_loc dst) (Reg md (old ++ data)%list) fs /\
    tr = [EvRead (f_name src); EvWrite (f_name dst) data].
Proof.
  unfold io_Copy, bind, File_ReadAll, File_Write, ret. intros H.
  destruct (lookup (f_loc src) fs) as [[ms data|ms es]|] eqn:Hs;
    try now inversion H.
  destruct (lookup (f_loc dst) fs) as [[md old|md es]|] eqn:Hd;
    try now inversion H.
  inversion H; subst. eauto 10.
Qed.

Lemma io_Copy_fail dst src fs n e fs1 tr :
  io_Copy dst src fs = Some ((n, Some e), fs1, tr) -> fs1 = fs.
Proof.
  unfold io_Copy, bind, File_ReadAll, File_Write, ret. intros H.
  destruct (lookup (f_loc src) fs) as [[ms data|ms es]|] eqn:Hs;
    try now inversion H.
  destruct (lookup (f_loc dst) fs) as [[md old|md es]|] eqn:Hd;
    now inversion H.
Qed.

Lemma io_Copy_total dst src fs :
  exists n err fs1 tr, io_Copy dst src fs = Some ((n, err), fs1, tr).
Proof.
  unfold io_Copy, bind, File_ReadAll, File_Write, ret.
  destruct (lookup (f_loc src) fs) as [[ms data|ms es]|]; eauto 8.
  destruct (lookup (f_loc dst) fs) as [[md old|md es]|]; eauto 8.
Qed.

End SyscallFacts.

(* ================================================================== *)
(** * ColdCopy *)
(* ================================================================== *)

Section ColdCopyFacts.
Variable Data : Type.
Implicit Types (fi : option FileInfo) (data : option Data).

Lemma ColdCopy_open_fail source target fi data fs e :
  os_Open source fs = Some (Fail e, fs, [EvOpen source]) ->
  ColdCopy source target fi data fs = Some (Some e, fs, [EvOpen source]).
Proof. intros H. unfold ColdCopy, bind. rewrite H. reflexivity. Qed.

Lemma ColdCopy_create_fail source target fi data fs in_ e :
  os_Open source fs = Some (Ok in_, fs, [EvOpen source]) ->
  os_Create target fs = Some (Fail e, fs, [EvCreate target]) ->
  ColdCopy source target fi data fs =
    Some (Some e, fs, [EvOpen source; EvCreate target; EvClose source]).
Proof.
  intros Ho Hc. pose proof (os_Open_ok _ _ _ _ _ Ho) as (_ & _ & Hn & _).
  unfold ColdCopy, bind. rewrite Ho, Hc. simpl. now rewrite Hn.
Qed.

Lemma ColdCopy_copy source target fi data fs in_ out fs1 n err fs2 ctr :
  os_Open source fs = Some (Ok in_, fs, [EvOpen source]) ->
  os_Create target fs = Some (Ok out, fs1, [EvCreate target]) ->
  io_Copy out in_ fs1 = Some ((n, err), fs2, ctr) ->
  ColdCopy source target fi data fs =
    Some (err, fs2,
          [EvOpen source; EvCreate target] ++ ctr ++
          [EvClose target; EvClose source])%list.
Proof.
  intros Ho Hc Hio.
  pose proof (os_Open_ok _ _ _ _ _ Ho) as (_ & _ & Hn & _).
  pose proof (os_Create_ok _ _ _ _ _ Hc) as (_ & Hm & _).
  unfold ColdCopy, bind. rewrite Ho, Hc, Hio. simpl.
  rewrite Hn, Hm. reflexivity.
Qed.

(** [ColdCopy] does not look at the metadata or at the user data. *)
Lemma ColdCopy_ignores_fi_data source target fi data :
  ColdCopy source target fi data = ColdCopy (Data:=Data) source target None None.
Proof. reflexivity. Qed.

(** What a successful copy leaves behind. *)
Lemma ColdCopy_success source target fs in_ out fs1 n fs2 ctr :
  os_Open source fs = Some (Ok in_, fs, [EvOpen source]) ->
  os_Create target fs = Some (Ok out, fs1, [EvCreate target]) ->
  io_Copy out in_ fs1 = Some ((n, None), fs2, ctr) ->
  exists bytes,
    file_bytes target fs2 = Some bytes /\
    file_bytes source fs2 = Some bytes /\
    (resolve source fs <> resolve target fs ->
     file_bytes source fs = Some bytes) /\
    ctr = [EvRead source; EvWrite target bytes].
Proof.
  intros Ho Hc Hio.
  apply os_Open_ok in Ho as (_ & _ & Hn & Hrs & nsrc & Hsrc).
  apply os_Create_ok in Hc as (_ & Hm & Hrt & Hnd & m & Hfs1 & Hout).
  apply io_Copy_ok in Hio as (ms & bytes & md & old & Hrd & Hwr & Hfs2 & ->).
  rewrite Hout in Hwr. injection Hwr as <- <-.
  assert (Hk1 : keeps_dirs fs fs1) by (subst fs1; now apply keeps_dirs_put).
  assert (Hk2 : keeps_dirs fs1 fs2).
  { subst fs2. apply keeps_dirs_put. intros m' es'. congruence. }
  pose proof (keeps_dirs_trans _ _ _ Hk1 Hk2) as Hk.
  assert (Ht2 : lookup (f_loc out) fs2 = Some (Reg m bytes)).
  { subst fs2. eapply lookup_put_here; eauto. }
  exists bytes. rewrite Hn, Hm. repeat split.
  - unfold file_bytes. rewrite (resolve_keeps _ _ _ _ Hk Hrt), Ht2.
    reflexivity.
  - unfold file_bytes. rewrite (resolve_keeps _ _ _ _ Hk Hrs).
    destruct (list_eq_dec string_dec (f_loc in_) (f_loc out)) as [Heq|Hne].
    + rewrite Heq in Hrd |- *. rewrite Hout in Hrd.
      injection Hrd as <- <-. now rewrite Ht2.
    + subst fs2.
      erewrite lookup_put_frame; eauto. intros m' es'. congruence.
  - intros Hdiff. unfold file_bytes. rewrite Hrs.
    assert (Hne : f_loc in_ <> f_loc out) by congruence.
    destruct nsrc as [m0 d0|m0 es0].
    + pose proof (lookup_put_frame (Reg m []) (f_loc out) _ _ _ _
                    Hsrc Hne Hnd) as H1.
      rewrite <- Hfs1, Hrd in H1. injection H1 as <- <-.
      now rewrite Hsrc.
    + destruct (lookup_put_dir (Reg m []) (f_loc out) _ _ _ _ Hsrc Hnd)
        as [es' H1].
      rewrite <- Hfs1, Hrd in H1. discriminate.
Qed.

End ColdCopyFacts.

(** C5. [ColdCopy] always returns.  It opens the source, creates the
    target and copies, in that order; an error of the open, of the
    create or of the copy is what it returns, and the first two leave
    the file system as it was; when it returns [nil] the target holds
    the bytes the source holds (the bytes the source held before the
    call, when source and target are different files). *)
Theorem ColdCopy_spec (Data : Type) (source target : string)
    (fi : option FileInfo) (data : option Data) (fs : node) :
  exists res fs' tr,
    ColdCopy source target fi data fs = Some (res, fs', tr) /\
    (forall e,
       os_Open source fs = Some (Fail e, fs, [EvOpen source]) ->
       res = Some e /\ fs' = fs /\ tr = [EvOpen source]) /\
    (forall in_ e,
       os_Open source fs = Some (Ok in_, fs, [EvOpen source]) ->
       os_Create target fs = Some (Fail e, fs, [EvCreate target]) ->
       res = Some e /\ fs' = fs /\
       tr = [EvOpen source; EvCreate target; EvClose source]) /\
    (forall in_ out fs1 n e fs2 ctr,
       os_Open source fs = Some (Ok in_, fs, [EvOpen source]) ->
       os_Create target fs = Some (Ok out, fs1, [EvCreate target]) ->
       io_Copy out in_ fs1 = Some ((n, Some e), fs2, ctr) ->
       res = Some e) /\
    (res = None ->
       exists bytes,
         file_bytes target fs' = Some bytes /\
         file_bytes source fs' = Some bytes /\
         (resolve source fs <> resolve target fs ->
          file_bytes source fs = Some bytes) /\
         tr = [EvOpen source; EvCreate target;
               EvRead source; EvWrite target bytes;
               EvClose target; EvClose source]).
Proof.
  destruct (os_Open_total source fs) as [[in_|e] Ho].
  - destruct (os_Create_total target fs) as [[out|e] [fs1 Hc]].
    + destruct (io_Copy_total out in_ fs1) as (n & err & fs2 & ctr & Hio).
      rewrite (ColdCopy_copy _ _ _ fi data _ _ _ _ _ _ _ _ Ho Hc Hio).
      do 3 eexists. split; [reflexivity|]. repeat split; try congruence.
      intros ->.
      destruct (ColdCopy_success _ _ _ _ _ _ _ _ _ Ho Hc Hio)
        as (bytes & H1 & H2 & H3 & ->).
      exists bytes. auto.
    + pose proof (os_Create_fail _ _ _ _ _ Hc) as [-> _].
      rewrite (ColdCopy_create_fail _ _ _ fi data _ _ _ Ho Hc).
      do 3 eexists. split; [reflexivity|].
      repeat split; try congruence; try discriminate.
      all: intros; congruence.
  - rewrite (ColdCopy_open_fail _ _ _ fi data _ _ Ho).
    do 3 eexists. split; [reflexivity|].
    repeat split; try congruence; try discriminate.
    all: intros; congruence.
Qed.

(* ================================================================== *)
(** * New and CopyFile *)
(* ================================================================== *)

(** C9. [New] cleans the two roots and fills in the defaults: no
    exclusion, directory mode 0755, [ColdCopy], no user data. *)
Theorem New_defaults (Data : Type) (source target : string) :
  let t := New (Data:=Data) source target in
  Source t = path_Clean source /\
  Target t = path_Clean target /\
  ExcludeDir t = ExcludeNone /\
  ExcludeFile t = ExcludeNone /\
  (forall fi, ExcludeNone fi = false) /\
  DirMode t = 7 * 64 + 5 * 8 + 5 /\
  CopyFunc t = ColdCopy /\
  CopyData t = None.
Proof. simpl. repeat split. Qed.

Example New_cleans :
  Source (New (Data:=unit) "a//b/" "./out/../out") = "a/b" /\
  Target (New (Data:=unit) "a//b/" "./out/../out") = "out" /\
  Source (New (Data:=unit) "" "/") = "." /\
  Target (New (Data:=unit) "" "/") = "/".
Proof. repeat split; reflexivity. Qed.

(** C7. An excluded file is left alone: [CopyFile] returns [nil], makes
    no system call and leaves the file system as it is, whatever the
    copy function.  For a file that is not excluded [CopyFile] is one
    call of the copy function on the two joined paths, the metadata and
    the user data: same result, same file system, same trace. *)
Theorem CopyFile_spec (Data : Type) (t : Translator Data)
    (subpath : string) (fi : FileInfo) (fs : node) :
  (ExcludeFile t fi = true ->
   forall f, CopyFile (with_CopyFunc f t) subpath fi fs = Some (None, fs, [])) /\
  (ExcludeFile t fi = false ->
   CopyFile t subpath fi fs =
     CopyFunc t (path_Join [Source t; subpath])
                (path_Join [Target t; subpath])
                (Some fi) (CopyData t) fs).
Proof.
  split; intros H.
  - intros f. unfold CopyFile. simpl. now rewrite H.
  - unfold CopyFile. now rewrite H.
Qed.

(* ================================================================== *)
(** * CopyDir *)
(* ================================================================== *)

Lemma GetChildren_spec path fs :
  exists children err tr,
    GetChildren path fs = Some ((children, err), fs, tr) /\
    listing_trace path tr.
Proof.
  unfold GetChildren, bind, listing_trace.
  destruct (os_Open_total path fs) as [[f|e] Ho]; rewrite Ho.
  - apply os_Open_ok in Ho as (_ & _ & Hn & _).
    unfold File_Readdir, File_Close, emit, ret. rewrite Hn. simpl.
    destruct (lookup (f_loc f) fs) as [[m d|m [|[k n] es]]|]; eauto 8.
    destruct (searchable m); eauto 8.
  - simpl. eauto 8.
Qed.

Lemma os_Mkdir_effect name perm fs merr fs2 tr :
  os_Mkdir name perm fs = Some (merr, fs2, tr) ->
  match merr with
  | None => is_dir name fs2 = true
  | Some _ => fs2 = fs
  end.
Proof.
  destruct merr as [e|]; intros H.
  - eapply os_Mkdir_fail; eauto.
  - now apply os_Mkdir_ok in H.
Qed.

Lemma A_CopyDir_steps (Data : Type) :
  CopyDir_steps fatal_A (@RevA.CopyDir Data).
Proof.
  intros fuel t subpath fs src tgt.
  destruct (GetChildren_spec src fs) as (children & lerr & ltr & Hg & Hl).
  exists children, lerr, ltr. split; [exact Hg|]. split; [exact Hl|].
  destruct lerr as [e|].
  - simpl. unfold bind. fold src. rewrite Hg. simpl. now rewrite app_nil_r.
  - destruct (os_Mkdir_total tgt (DirMode t) fs) as (merr & fs2 & Hm).
    exists merr, fs2. split; [exact Hm|].
    split; [eapply os_Mkdir_effect; eauto|].
    simpl. unfold bind at 1. fold src. rewrite Hg.
    unfold bind at 1. fold tgt. rewrite Hm.
    destruct merr as [e|]; simpl; [reflexivity|].
    unfold bind.
    destruct (for_each children _ fs2) as [[[u fs'] rest]|]; [|reflexivity].
    simpl. now rewrite app_nil_r.
Qed.

Lemma B_CopyDir_steps (Data : Type) :
  CopyDir_steps fatal_B (@RevB.CopyDir Data).
Proof.
  intros fuel t subpath fs src tgt.
  destruct (GetChildren_spec src fs) as (children & lerr & ltr & Hg & Hl).
  exists children, lerr, ltr. split; [exact Hg|]. split; [exact Hl|].
  destruct lerr as [e|].
  - simpl. unfold bind. fold src. rewrite Hg. simpl. now rewrite app_nil_r.
  - destruct (os_Mkdir_total tgt (DirMode t) fs) as (merr & fs2 & Hm).
    exists merr, fs2. split; [exact Hm|].
    split; [eapply os_Mkdir_effect; eauto|].
    simpl. unfold bind at 1. fold src. rewrite Hg.
    unfold bind at 1. fold tgt. rewrite Hm.
    change (match merr with Some _ => true | None => false end
            && negb (os_IsExist merr)) with (fatal_B merr).
    destruct (fatal_B merr); simpl; [reflexivity|].
    unfold bind.
    destruct (for_each children _ fs2) as [[[u fs'] rest]|]; [|reflexivity].
    simpl. now rewrite app_nil_r.
Qed.

(* ================================================================== *)
(** * TemplateCopy *)
(* ================================================================== *)

Section TemplateFacts.
Variables Data Template : Type.
Variable parse : string -> list byte -> result Template.
Variable render : Template -> option Data -> list byte * option error.

(** A file other than the one [os.Create] made keeps its bytes. *)
Lemma os_Create_frame name fs out fs1 tr other text :
  os_Create name fs = Some (Ok out, fs1, tr) ->
  file_bytes other fs = Some text ->
  resolve other fs <> resolve name fs ->
  file_bytes other fs1 = Some text.
Proof.
  intros Hc Hb Hne.
  pose proof (os_Create_keeps _ _ _ _ _ Hc) as Hk.
  apply os_Create_ok in Hc as (_ & _ & Hr & Hnd & m & -> & _).
  unfold file_bytes in *.
  destruct (resolve other fs) as [e|p] eqn:Hro; [discriminate|].
  rewrite (resolve_keeps _ _ _ _ Hk Hro).
  destruct (lookup p fs) as [[m0 d0|m0 es0]|] eqn:Hl; try discriminate.
  injection Hb as ->.
  erewrite lookup_put_frame; eauto. congruence.
Qed.

(** [template.ParseFiles] reads the named file and nothing else, and
    leaves the file system as it is. *)
Lemma template_ParseFiles_spec name fs :
  exists r tr,
    RevB.template_ParseFiles parse name fs = Some (r, fs, tr) /\
    (tr = [EvOpen name] \/ tr = [EvOpen name; EvRead name; EvClose name]) /\
    match r with
    | Ok tmpl =>
        exists text,
          file_bytes name fs = Some text /\
          parse (path_Base name) text = Ok tmpl
    | Fail _ => True
    end.
Proof.
  unfold RevB.template_ParseFiles, os_ReadFile, bind.
  destruct (os_Open_total name fs) as [[f|e] Ho]; rewrite Ho.
  - apply os_Open_ok in Ho as (_ & _ & Hn & Hr & _).
    unfold File_ReadAll, File_Close, emit, ret, file_bytes.
    rewrite Hn, Hr. simpl.
    destruct (lookup (f_loc f) fs) as [[m d|m es]|]; simpl; eauto 8.
    destruct (parse (path_Base name) d) as [tmpl|e] eqn:Hp; eauto 8.
  - simpl. eauto 8.
Qed.

Lemma TemplateCopy_plain source target fi data :
  strings_HasSuffix source ".tmpl" = false ->
  RevB.TemplateCopy parse render source target fi data =
  ColdCopy (Data:=Data) source target None None.
Proof. intros H. unfold RevB.TemplateCopy. now rewrite H. Qed.

Lemma TemplateCopy_create_fail source target fi data fs e :
  strings_HasSuffix source ".tmpl" = true ->
  os_Create (strings_TrimSuffix target ".tmpl") fs =
    Some (Fail e, fs, [EvCreate (strings_TrimSuffix target ".tmpl")]) ->
  RevB.TemplateCopy parse render source target fi data fs =
    Some (Some e, fs, [EvCreate (strings_TrimSuffix target ".tmpl")]).
Proof.
  intros H Hc. unfold RevB.TemplateCopy, bind. rewrite H. simpl.
  rewrite Hc. reflexivity.
Qed.

Lemma TemplateCopy_parse_fail source target fi data fs out fs1 e ptr :
  strings_HasSuffix source ".tmpl" = true ->
  os_Create (strings_TrimSuffix target ".tmpl") fs =
    Some (Ok out, fs1, [EvCreate (strings_TrimSuffix target ".tmpl")]) ->
  RevB.template_ParseFiles parse source fs1 = Some (Fail e, fs1, ptr) ->
  RevB.TemplateCopy parse render source target fi data fs =
    Some (Some e, fs1,
          (EvCreate (strings_TrimSuffix target ".tmpl") :: ptr ++
           [EvClose (strings_TrimSuffix target ".tmpl")])%list).
Proof.
  intros H Hc Hp.
  pose proof (os_Create_ok _ _ _ _ _ Hc) as (_ & Hn & _).
  unfold RevB.TemplateCopy, bind. rewrite H. simpl.
  rewrite Hc, Hp. simpl. now rewrite Hn.
Qed.

Lemma TemplateCopy_execute source target fi data fs out fs1 tmpl ptr :
  strings_HasSuffix source ".tmpl" = true ->
  os_Create (strings_TrimSuffix target ".tmpl") fs =
    Some (Ok out, fs1, [EvCreate (strings_TrimSuffix target ".tmpl")]) ->
  RevB.template_ParseFiles parse source fs1 = Some (Ok tmpl, fs1, ptr) ->
  exists fs',
    RevB.TemplateCopy parse render source target fi data fs =
      Some (snd (render tmpl data), fs',
            (EvCreate (strings_TrimSuffix target ".tmpl") :: ptr ++
             [EvWrite (strings_TrimSuffix target ".tmpl")
                      (fst (render tmpl data));
              EvClose (strings_TrimSuffix target ".tmpl")])%list) /\
    file_bytes (strings_TrimSuffix target ".tmpl") fs' =
      Some (fst (render tmpl data)).
Proof.
  intros H Hc Hp.
  pose proof (os_Create_keeps _ _ _ _ _ Hc) as Hk1.
  pose proof (os_Create_ok _ _ _ _ _ Hc) as (_ & Hn & Hr & Hnd & m & _ & Hl).
  unfold RevB.TemplateCopy, bind. rewrite H. simpl.
  rewrite Hc, Hp. unfold RevB.Template_Execute.
  destruct (render tmpl data) as [text err]. simpl.
  unfold bind, File_Write, File_Close, emit, ret. rewrite Hl, Hn. simpl.
  eexists. split; [reflexivity|].
  assert (Hk2 : keeps_dirs fs1 (put (f_loc out) (Reg m text) fs1)).
  { apply keeps_dirs_put. intros m' es'. congruence. }
  unfold file_bytes.
  rewrite (resolve_keeps _ _ _ _ (keeps_dirs_trans _ _ _ Hk1 Hk2) Hr).
  erewrite lookup_put_here by eauto. reflexivity.
Qed.

End TemplateFacts.

(** C6. A source without the suffix [.tmpl] is handed to [ColdCopy]
    with the same two names, [nil] metadata and [nil] data.  For a
    source with the suffix [TemplateCopy] always returns; the file it
    creates is the target with [.tmpl] trimmed; a failure to create it,
    to read or to parse the source is returned; otherwise the result is
    the one of executing the template on the user data, and the created
    file holds what the execution wrote.  The template is parsed from
    the bytes the source holds once the target was created, which are
    the bytes it held before when the two are different files. *)
Theorem TemplateCopy_spec (Data Template : Type)
    (parse : string -> list byte -> result Template)
    (render : Template -> option Data -> list byte * option error)
    (source target : string) (fi : option FileInfo) (data : option Data)
    (fs : node) :
  (strings_HasSuffix source ".tmpl" = false ->
   RevB.TemplateCopy parse render source target fi data fs =
   ColdCopy (Data:=Data) source target None None fs) /\
  (strings_HasSuffix source ".tmpl" = true ->
   let out_name := strings_TrimSuffix target ".tmpl" in
   exists res fs' tr,
     RevB.TemplateCopy parse render source target fi data fs =
       Some (res, fs', tr) /\
     (forall e,
        os_Create out_name fs = Some (Fail e, fs, [EvCreate out_name]) ->
        res = Some e /\ fs' = fs) /\
     (forall out fs1,
        os_Create out_name fs = Some (Ok out, fs1, [EvCreate out_name]) ->
        exists r ptr,
          RevB.template_ParseFiles parse source fs1 = Some (r, fs1, ptr) /\
          match r with
          | Fail e => res = Some e /\ fs' = fs1
          | Ok tmpl =>
              exists text,
                file_bytes source fs1 = Some text /\
                (forall text0,
                   file_bytes source fs = Some text0 ->
                   resolve source fs <> resolve out_name fs ->
                   text = text0) /\
                parse (path_Base source) text = Ok tmpl /\
                res = snd (render tmpl data) /\
                file_bytes out_name fs' = Some (fst (render tmpl data))
          end)).
Proof.
  split; intros Hsuf.
  - now rewrite TemplateCopy_plain.
  - intros out_name.
    destruct (os_Create_total out_name fs) as [[out|e] [fs1 Hc]].
    + destruct (template_ParseFiles_spec _ parse source fs1)
        as (r & ptr & Hp & _ & Hr).
      destruct r as [tmpl|e].
      * destruct (TemplateCopy_execute _ _ parse render _ _ fi data
                    _ _ _ _ _ Hsuf Hc Hp) as (fs' & Hrun & Hout).
        do 3 eexists. split; [exact Hrun|]. split.
        -- intros e Hc'. fold out_name in Hc. congruence.
        -- intros out' fs1' Hc'. fold out_name in Hc.
           rewrite Hc in Hc'. injection Hc' as <- <-.
           exists (Ok tmpl), ptr. split; [exact Hp|].
           destruct Hr as (text & Hb & Hparse).
           exists text. repeat split; auto.
           intros text0 Hb0 Hne.
           pose proof (os_Create_frame _ _ _ _ _ _ _ Hc Hb0 Hne) as Hb1.
           congruence.
      * rewrite (TemplateCopy_parse_fail _ _ parse render _ _ fi data
                   _ _ _ _ _ Hsuf Hc Hp).
        do 3 eexists. split; [reflexivity|]. split.
        -- intros e' Hc'. fold out_name in Hc. congruence.
        -- intros out' fs1' Hc'. fold out_name in Hc.
           rewrite Hc in Hc'. injection Hc' as <- <-.
           exists (Fail e), ptr. auto.
    + pose proof (os_Create_fail _ _ _ _ _ Hc) as [-> _].
      rewrite (TemplateCopy_create_fail _ _ parse render _ _ fi data
                 _ _ Hsuf Hc).
      do 3 eexists. split; [reflexivity|]. split.
      * intros e' Hc'. fold out_name in Hc. split; congruence.
      * intros out' fs1' Hc'. fold out_name in Hc. congruence.
Qed.

(** C10. For a source with the suffix [.tmpl], [TemplateCopy] creates
    the target without the suffix first and parses afterwards.  When the
    parse fails, its error is returned, and the file system is the one
    [os.Create] left: the target is there and it is empty, whatever it
    held before. *)
Theorem TemplateCopy_parse_error_truncates (Data Template : Type)
    (parse : string -> list byte -> result Template)
    (render : Template -> option Data -> list byte * option error)
    (source target : string) (fi : option FileInfo) (data : option Data)
    (fs fs1 : node) (out : File) (e : error) (ptr : list Event) :
  let out_name := strings_TrimSuffix target ".tmpl" in
  strings_HasSuffix source ".tmpl" = true ->
  os_Create out_name fs = Some (Ok out, fs1, [EvCreate out_name]) ->
  RevB.template_ParseFiles parse source fs1 = Some (Fail e, fs1, ptr) ->
  RevB.TemplateCopy parse render source target fi data fs =
    Some (Some e, fs1, (EvCreate out_name :: ptr ++ [EvClose out_name])%list) /\
  file_bytes out_name fs1 = Some [] /\
  (ptr = [EvOpen source] \/
   ptr = [EvOpen source; EvRead source; EvClose source]).
Proof.
  intros out_name Hsuf Hc Hp. split; [|split].
  - eapply TemplateCopy_parse_fail; eauto.
  - pose proof (os_Create_keeps _ _ _ _ _ Hc) as Hk.
    apply os_Create_ok in Hc as (_ & _ & Hr & _ & m & _ & Hl).
    unfold file_bytes. now rewrite (resolve_keeps _ _ _ _ Hk Hr), Hl.
  - destruct (template_ParseFiles_spec _ parse source fs1)
      as (r & ptr' & Hp' & Htr & _).
    congruence.
Qed.

(* ================================================================== *)
(** * What the walk does with ExcludeDir and with the errors of children *)
(* ================================================================== *)

Section WalkFacts.
Variable Data : Type.
Implicit Types (t : Translator Data).

Lemma bind_ext {A B} (m : M A) (k1 k2 : A -> M B) fs :
  (forall a fs1, k1 a fs1 = k2 a fs1) -> bind m k1 fs = bind m k2 fs.
Proof.
  intros H. unfold bind. destruct (m fs) as [[[a fs1] tr1]|]; [|reflexivity].
  now rewrite H.
Qed.

Lemma for_each_ext {A} (xs : list A) (b1 b2 : A -> M unit) :
  (forall x fs, b1 x fs = b2 x fs) ->
  forall fs, for_each xs b1 fs = for_each xs b2 fs.
Proof.
  intros H. induction xs as [|x rest IH]; intros fs; simpl; [reflexivity|].
  unfold bind. rewrite H.
  destruct (b2 x fs) as [[[u fs1] tr1]|]; [|reflexivity].
  now rewrite IH.
Qed.

Lemma copy_child_ExcludeDir f t (cd1 cd2 : string -> M (option error))
    subpath child fs :
  (forall s fs1, cd1 s fs1 = cd2 s fs1) ->
  copy_child cd1 (with_ExcludeDir f t) subpath child fs =
  copy_child cd2 t subpath child fs.
Proof.
  intros H. unfold copy_child. destruct (IsDir child).
  - unfold bind. now rewrite H.
  - reflexivity.
Qed.

(** [CopyDir] never reads the field [ExcludeDir]: replacing it changes
    nothing, in either revision. *)
Lemma A_CopyDir_ignores_ExcludeDir f fuel :
  forall t subpath fs,
    RevA.CopyDir fuel (with_ExcludeDir f t) subpath fs =
    RevA.CopyDir fuel t subpath fs.
Proof.
  induction fuel as [|fuel IH]; intros t subpath fs; [reflexivity|].
  simpl. apply bind_ext. intros [children err] fs1.
  destruct err; [reflexivity|].
  apply bind_ext. intros merr fs2. destruct merr; [reflexivity|].
  unfold bind.
  rewrite (for_each_ext children _
             (copy_child (RevA.CopyDir fuel t) t subpath)); [reflexivity|].
  intros child fs3. apply copy_child_ExcludeDir. intros s fs4. apply IH.
Qed.

Lemma B_CopyDir_ignores_ExcludeDir f fuel :
  forall t subpath fs,
    RevB.CopyDir fuel (with_ExcludeDir f t) subpath fs =
    RevB.CopyDir fuel t subpath fs.
Proof.
  induction fuel as [|fuel IH]; intros t subpath fs; [reflexivity|].
  simpl. apply bind_ext. intros [children err] fs1.
  destruct err; [reflexivity|].
  apply bind_ext. intros merr fs2.
  destruct (_ && _); [reflexivity|].
  unfold bind.
  rewrite (for_each_ext children _
             (copy_child (RevB.CopyDir fuel t) t subpath)); [reflexivity|].
  intros child fs3. apply copy_child_ExcludeDir. intros s fs4. apply IH.
Qed.

(** An error [CopyDir] returns is the error of its own listing or of
    its own [os.Mkdir]: what the children return is never handed on. *)
Lemma CopyDir_error_is_own fatal copyDir :
  CopyDir_steps (Data:=Data) fatal copyDir ->
  forall fuel t subpath fs e fs' tr,
    copyDir (S fuel) t subpath fs = Some (Some e, fs', tr) ->
    (exists children ltr,
       GetChildren (path_Join [Source t; subpath]) fs =
         Some ((children, Some e), fs, ltr)) \/
    (exists fs2 mtr,
       os_Mkdir (path_Join [Target t; subpath]) (DirMode t) fs =
         Some (Some e, fs2, mtr)).
Proof.
  intros Hsteps fuel t subpath fs e fs' tr Hrun.
  destruct (Hsteps fuel t subpath fs)
    as (children & lerr & ltr & Hg & _ & Hrest).
  destruct lerr as [e0|].
  - left. rewrite Hrest in Hrun. injection Hrun as -> _ _. eauto.
  - right. destruct Hrest as (merr & fs2 & Hm & _ & Hcd).
    rewrite Hcd in Hrun. destruct (fatal merr).
    + injection Hrun as -> _ _. eauto.
    + destruct (for_each children _ fs2) as [[[u fs3] rest]|];
        discriminate.
Qed.

(** Revision B, the policy of [os.Mkdir] errors: an error of the
    "already exists" class is not returned and the loop over the
    children runs; any other error is returned at once. *)
Lemma B_CopyDir_mkdir_policy fuel t subpath fs children ltr merr fs2 mtr :
  GetChildren (path_Join [Source t; subpath]) fs =
    Some ((children, None), fs, ltr) ->
  os_Mkdir (path_Join [Target t; subpath]) (DirMode t) fs =
    Some (merr, fs2, mtr) ->
  (os_IsExist merr = true ->
   RevB.CopyDir (S fuel) t subpath fs =
     match for_each children
             (copy_child (RevB.CopyDir fuel t) t subpath) fs with
     | None => None
     | Some (_, fs', rest) => Some (None, fs', (ltr ++ mtr ++ rest)%list)
     end) /\
  (forall e, merr = Some e -> os_IsExist merr = false ->
   RevB.CopyDir (S fuel) t subpath fs = Some (Some e, fs, (ltr ++ mtr)%list)).
Proof.
  intros Hg Hm.
  destruct (B_CopyDir_steps Data fuel t subpath fs)
    as (children' & lerr & ltr' & Hg' & _ & Hrest).
  rewrite Hg in Hg'. injection Hg' as <- <- <-.
  destruct Hrest as (merr' & fs2' & Hm' & Heff & Hcd).
  rewrite Hm in Hm'. injection Hm' as <- <- ->.
  split.
  - intros Hex. rewrite Hcd. unfold fatal_B. rewrite Hex, andb_false_r.
    destruct merr as [e|]; [|discriminate]. subst fs2. reflexivity.
  - intros e -> Hex. rewrite Hcd. unfold fatal_B. rewrite Hex. simpl.
    now subst fs2.
Qed.

(** Revision A returns every error of [os.Mkdir]. *)
Lemma A_CopyDir_mkdir_policy fuel t subpath fs children ltr e fs2 mtr :
  GetChildren (path_Join [Source t; subpath]) fs =
    Some ((children, None), fs, ltr) ->
  os_Mkdir (path_Join [Target t; subpath]) (DirMode t) fs =
    Some (Some e, fs2, mtr) ->
  RevA.CopyDir (S fuel) t subpath fs = Some (Some e, fs, (ltr ++ mtr)%list).
Proof.
  intros Hg Hm.
  destruct (A_CopyDir_steps Data fuel t subpath fs)
    as (children' & lerr & ltr' & Hg' & _ & Hrest).
  rewrite Hg in Hg'. injection Hg' as <- <- <-.
  destruct Hrest as (merr' & fs2' & Hm' & Heff & Hcd).
  rewrite Hm in Hm'. injection Hm' as <- <- ->.
  rewrite Hcd. simpl. now subst fs2.
Qed.

(** A target that is already there: revision B goes on with the
    children, revision A returns the error of [os.Mkdir]. *)
Lemma B_CopyDir_existing_target fuel t subpath fs children ltr :
  let tgt := path_Join [Target t; subpath] in
  GetChildren (path_Join [Source t; subpath]) fs =
    Some ((children, None), fs, ltr) ->
  exists_at tgt fs = true ->
  RevB.CopyDir (S fuel) t subpath fs =
    match for_each children
            (copy_child (RevB.CopyDir fuel t) t subpath) fs with
    | None => None
    | Some (_, fs', rest) =>
        Some (None, fs', (ltr ++ EvMkdir tgt (DirMode t) :: rest)%list)
    end.
Proof.
  intros tgt Hg Hex.
  pose proof (os_Mkdir_exists tgt (DirMode t) fs Hex) as Hm.
  destruct (B_CopyDir_mkdir_policy fuel t subpath fs _ _ _ _ _ Hg Hm)
    as [Hgo _].
  rewrite Hgo by reflexivity. reflexivity.
Qed.

Lemma A_CopyDir_existing_target fuel t subpath fs children ltr :
  let tgt := path_Join [Target t; subpath] in
  GetChildren (path_Join [Source t; subpath]) fs =
    Some ((children, None), fs, ltr) ->
  exists_at tgt fs = true ->
  RevA.CopyDir (S fuel) t subpath fs =
    Some (Some (PathError "mkdir" tgt EEXIST), fs,
          (ltr ++ [EvMkdir tgt (DirMode t)])%list).
Proof.
  intros tgt Hg Hex.
  pose proof (os_Mkdir_exists tgt (DirMode t) fs Hex) as Hm.
  exact (A_CopyDir_mkdir_policy fuel t subpath fs _ _ _ _ _ Hg Hm).
Qed.

Lemma A_Translate_noop t fs : RevA.Translate t fs = Some (None, fs, []).
Proof. reflexivity. Qed.

Lemma B_Translate_is_CopyDir fuel t :
  RevB.Translate fuel t = RevB.CopyDir fuel t "".
Proof. reflexivity. Qed.

(** More fuel does not change a run that finished. *)
Lemma for_each_mono {A} (xs : list A) (b1 b2 : A -> M unit) :
  (forall x fs r, b1 x fs = Some r -> b2 x fs = Some r) ->
  forall fs r, for_each xs b1 fs = Some r -> for_each xs b2 fs = Some r.
Proof.
  intros H. induction xs as [|x rest IH]; intros fs r; simpl; [auto|].
  unfold bind. destruct (b1 x fs) as [[[u fs1] tr1]|] eqn:Hb; [|discriminate].
  rewrite (H _ _ _ Hb).
  destruct (for_each rest b1 fs1) as [[[u2 fs2] tr2]|] eqn:Hf; [|discriminate].
  now rewrite (IH _ _ Hf).
Qed.

Lemma CopyDir_fuel_S fatal copyDir :
  CopyDir_steps (Data:=Data) fatal copyDir ->
  (forall t subpath fs, copyDir O t subpath fs = None) ->
  forall fuel t subpath fs r,
    copyDir fuel t subpath fs = Some r ->
    copyDir (S fuel) t subpath fs = Some r.
Proof.
  intros Hsteps H0.
  induction fuel as [|fuel IH]; intros t subpath fs r H.
  - rewrite H0 in H. discriminate.
  - destruct (Hsteps fuel t subpath fs)
      as (children & lerr & ltr & Hg & _ & Hrest).
    destruct (Hsteps (S fuel) t subpath fs)
      as (children' & lerr' & ltr' & Hg' & _ & Hrest').
    rewrite Hg in Hg'. injection Hg' as <- <- <-.
    destruct lerr as [e|]; [congruence|].
    destruct Hrest as (merr & fs2 & Hm & _ & Hcd).
    destruct Hrest' as (merr' & fs2' & Hm' & _ & Hcd').
    rewrite Hm in Hm'. injection Hm' as <- <-.
    rewrite Hcd in H. rewrite Hcd'.
    destruct (fatal merr); [exact H|].
    destruct (for_each children (copy_child (copyDir fuel t) t subpath) fs2)
      as [[[u fs3] rest]|] eqn:Hf; [|discriminate].
    assert (Hf' : for_each children
                    (copy_child (copyDir (S fuel) t) t subpath) fs2 =
                  Some (u, fs3, rest)).
    { eapply for_each_mono; [|exact Hf].
      intros child fs4 r4. unfold copy_child.
      destruct (IsDir child); [|auto].
      unfold bind.
      destruct (copyDir fuel t _ fs4) as [[[res fs5] tr5]|] eqn:Hc;
        [|discriminate].
      now rewrite (IH _ _ _ _ Hc). }
    rewrite Hf'. exact H.
Qed.

Lemma B_CopyDir_fuel_S fuel t subpath fs r :
  RevB.CopyDir fuel t subpath fs = Some r ->
  RevB.CopyDir (S fuel) t subpath fs = Some r.
Proof.
  apply (CopyDir_fuel_S fatal_B); [apply B_CopyDir_steps|reflexivity].
Qed.

Lemma A_CopyDir_fuel_S fuel t subpath fs r :
  RevA.CopyDir fuel t subpath fs = Some r ->
  RevA.CopyDir (S fuel) t subpath fs = Some r.
Proof.
  apply (CopyDir_fuel_S fatal_A); [apply A_CopyDir_steps|reflexivity].
Qed.

End WalkFacts.

(* ================================================================== *)
(** * The package on the example inputs *)
(* ================================================================== *)

(** C1 (revision A).  [Translate] of [src/staticdir.go] returns [nil]
    without a single system call: the source tree [src] is not walked
    and no target [out] appears.  [CopyDir] of the same revision,
    started at the root, and [Translate] of revision B do the walk. *)
Theorem A_Translate_does_not_walk :
  RevA.Translate Demo.t0 Demo.fs0 = Some (None, Demo.fs0, []) /\
  is_dir "src" Demo.fs0 = true /\
  exists_at "out" Demo.fs0 = false /\
  RevA.CopyDir 2 Demo.t0 "" Demo.fs0 =
    Some (None, Demo.fs_copied, Demo.walk_trace) /\
  RevB.Translate 2 Demo.t0 Demo.fs0 =
    Some (None, Demo.fs_copied, Demo.walk_trace).
Proof. repeat split; vm_compute; reflexivity. Qed.

(** C2.  The first child of [src], [a.txt], cannot be read, and
    [CopyFile] returns the error of opening it.  The walk nevertheless
    goes on to [b.txt] and to [d], copies them, and returns [nil], in
    both revisions. *)
Theorem CopyDir_goes_on_after_failed_child :
  GetChildren "src" Demo.fs0 =
    Some (([Demo.fi_a; Demo.fi_b; Demo.fi_d], None), Demo.fs0,
          [EvOpen "src"; EvReaddir "src"; EvClose "src"]) /\
  CopyFile Demo.t0 "a.txt" Demo.fi_a Demo.fs_out =
    Some (Some (PathError "open" "src/a.txt" EACCES), Demo.fs_out,
          [EvOpen "src/a.txt"]) /\
  RevB.Translate 2 Demo.t0 Demo.fs0 =
    Some (None, Demo.fs_copied, Demo.walk_trace) /\
  RevA.CopyDir 2 Demo.t0 "" Demo.fs0 =
    Some (None, Demo.fs_copied, Demo.walk_trace) /\
  file_bytes "out/b.txt" Demo.fs0 = None /\
  file_bytes "out/b.txt" Demo.fs_copied = Some (Demo.bytes "B") /\
  file_bytes "out/d/f" Demo.fs_copied = Some (Demo.bytes "F").
Proof. repeat split; vm_compute; reflexivity. Qed.

(** C3.  With a predicate [ExcludeDir] that holds of every directory,
    the walk still lists the directory [d] of [src], creates [out/d]
    and copies the file in it, in both revisions. *)
Theorem CopyDir_enters_excluded_directory :
  IsDir Demo.fi_d = true /\
  ExcludeDir Demo.t_excl Demo.fi_d = true /\
  RevB.Translate 2 Demo.t_excl Demo.fs0 =
    Some (None, Demo.fs_copied, Demo.walk_trace) /\
  RevA.CopyDir 2 Demo.t_excl "" Demo.fs0 =
    Some (None, Demo.fs_copied, Demo.walk_trace) /\
  In (EvReaddir "src/d") Demo.walk_trace /\
  In (EvMkdir "out/d" 493) Demo.walk_trace /\
  exists_at "out/d" Demo.fs0 = false /\
  is_dir "out/d" Demo.fs_copied = true /\
  file_bytes "out/d/f" Demo.fs_copied = Some (Demo.bytes "F").
Proof.
  repeat split; try (vm_compute; reflexivity); simpl; tauto.
Qed.

(** C4 (revision A).  [CopyDir] of [src/staticdir.go] run on a target
    that is already there, empty or populated by an earlier run, returns
    the "already exists" error of [os.Mkdir] and copies nothing.
    Revision B does the walk on both. *)
Theorem A_CopyDir_fails_on_existing_target :
  is_dir "out" Demo.fs_out = true /\
  RevA.CopyDir 2 Demo.t0 "" Demo.fs_out =
    Some (Some (PathError "mkdir" "out" EEXIST), Demo.fs_out,
          [EvOpen "src"; EvReaddir "src"; EvClose "src"; EvMkdir "out" 493]) /\
  RevA.CopyDir 2 Demo.t0 "" Demo.fs_copied =
    Some (Some (PathError "mkdir" "out" EEXIST), Demo.fs_copied,
          [EvOpen "src"; EvReaddir "src"; EvClose "src"; EvMkdir "out" 493]) /\
  RevB.CopyDir 2 Demo.t0 "" Demo.fs_out =
    Some (None, Demo.fs_copied, Demo.walk_trace) /\
  RevB.CopyDir 2 Demo.t0 "" Demo.fs_copied =
    Some (None, Demo.fs_copied, Demo.walk_trace).
Proof. repeat split; vm_compute; reflexivity. Qed.

(** C5 on [src/b.txt] and [out/b.txt]. *)
Lemma ColdCopy_spec_witness :
  exists res fs' tr,
    ColdCopy (Data:=list byte) "src/b.txt" "out/b.txt" None None Demo.fs_out =
      Some (res, fs', tr) /\
    res = None /\
    file_bytes "out/b.txt" fs' = Some (Demo.bytes "B") /\
    file_bytes "src/b.txt" fs' = Some (Demo.bytes "B").
Proof.
  destruct (ColdCopy_spec (list byte) "src/b.txt" "out/b.txt" None None
              Demo.fs_out) as (res & fs' & tr & Hrun & _ & _ & _ & Hok).
  exists res, fs', tr.
  assert (Hres : res = None) by (vm_compute in Hrun; congruence).
  destruct (Hok Hres) as (bs & Ht & Hs & Hpre & _).
  assert (Hbs : Some (Demo.bytes "B") = Some bs).
  { apply Hpre. vm_compute. discriminate. }
  injection Hbs as <-. auto.
Defined.

(** A source that cannot be opened. *)
Example ColdCopy_unreadable :
  ColdCopy (Data:=list byte) "src/a.txt" "out/a.txt" None None Demo.fs_out =
    Some (Some (PathError "open" "src/a.txt" EACCES), Demo.fs_out,
          [EvOpen "src/a.txt"]).
Proof. reflexivity. Qed.

(** [ColdCopy] of a file onto itself: the file is truncated first, so
    nothing is left to copy. *)
Example ColdCopy_onto_itself :
  exists fs' tr,
    ColdCopy (Data:=list byte) "src/b.txt" "./src/b.txt" None None Demo.fs0 =
      Some (None, fs', tr) /\
    file_bytes "src/b.txt" Demo.fs0 = Some (Demo.bytes "B") /\
    file_bytes "src/b.txt" fs' = Some [].
Proof. do 2 eexists. repeat split; vm_compute; reflexivity. Qed.

(** C7 on an excluded and on an included file. *)
Lemma CopyFile_spec_witness :
  CopyFile (with_CopyFunc Demo.failing_copy
              (with_ExcludeFile (fun _ => true) Demo.t0))
           "b.txt" Demo.fi_b Demo.fs_out =
    Some (None, Demo.fs_out, []) /\
  CopyFile Demo.t0 "b.txt" Demo.fi_b Demo.fs_out =
    ColdCopy (Data:=list byte) "src/b.txt" "out/b.txt" (Some Demo.fi_b) None
      Demo.fs_out.
Proof.
  split.
  - apply (proj1 (CopyFile_spec (list byte)
                    (with_ExcludeFile (fun _ => true) Demo.t0)
                    "b.txt" Demo.fi_b Demo.fs_out)).
    reflexivity.
  - apply (proj2 (CopyFile_spec (list byte) Demo.t0
                    "b.txt" Demo.fi_b Demo.fs_out)).
    reflexivity.
Defined.

(** C6 on a plain file and on a template. *)
Lemma TemplateCopy_spec_witness :
  RevB.TemplateCopy Demo.toy_Parse Demo.toy_Render
    "src/readme.txt" "out/readme.txt" (Some Demo.fi_b)
    (Some (Demo.bytes "world")) Demo.fs_tmpl =
  ColdCopy (Data:=list byte) "src/readme.txt" "out/readme.txt" None None
    Demo.fs_tmpl /\
  exists res fs' tr,
    RevB.TemplateCopy Demo.toy_Parse Demo.toy_Render
      "src/page.html.tmpl" "out/page.html.tmpl" None
      (Some (Demo.bytes "world")) Demo.fs_tmpl = Some (res, fs', tr) /\
    res = None /\
    file_bytes "out/page.html" fs' = Some (Demo.bytes "Hello, world").
Proof.
  split.
  - apply (proj1 (TemplateCopy_spec _ _ Demo.toy_Parse Demo.toy_Render
                    "src/readme.txt" "out/readme.txt" (Some Demo.fi_b)
                    (Some (Demo.bytes "world")) Demo.fs_tmpl)).
    reflexivity.
  - destruct (proj2 (TemplateCopy_spec _ _ Demo.toy_Parse Demo.toy_Render
                       "src/page.html.tmpl" "out/page.html.tmpl" None
                       (Some (Demo.bytes "world")) Demo.fs_tmpl)
                eq_refl) as (res & fs' & tr & Hrun & _ & Hok).
    exists res, fs', tr. split; [exact Hrun|].
    destruct (os_Create_total "out/page.html" Demo.fs_tmpl)
      as (r & fs1 & Hc).
    assert (Hr : exists out, r = Ok out).
    { vm_compute in Hc. injection Hc as <- _. eauto. }
    destruct Hr as [out ->].
    destruct (Hok out fs1 Hc) as (r & ptr & Hp & Hr).
    vm_compute in Hc. injection Hc as <- <-.
    vm_compute in Hp. injection Hp as <- _.
    cbv beta iota in Hr.
    destruct Hr as (text & _ & _ & _ & Hres & Hout).
    split; [exact Hres|exact Hout].
Defined.

(** C10 on a template that does not
    parse and whose target held an earlier rendering. *)
Lemma TemplateCopy_parse_error_witness :
  RevB.TemplateCopy Demo.toy_Parse Demo.toy_Render
    "src/bad.html.tmpl" "out/bad.html.tmpl" None
    (Some (Demo.bytes "world")) Demo.fs_tmpl =
    Some (Some Demo.parse_error, Demo.fs_tmpl_truncated,
          [EvCreate "out/bad.html"; EvOpen "src/bad.html.tmpl";
           EvRead "src/bad.html.tmpl"; EvClose "src/bad.html.tmpl";
           EvClose "out/bad.html"]) /\
  file_bytes "out/bad.html" Demo.fs_tmpl = Some (Demo.bytes "old") /\
  file_bytes "out/bad.html" Demo.fs_tmpl_truncated = Some [].
Proof.
  destruct (TemplateCopy_parse_error_truncates
              (list byte) (list byte) Demo.toy_Parse Demo.toy_Render
              "src/bad.html.tmpl" "out/bad.html.tmpl" None
              (Some (Demo.bytes "world"))
              Demo.fs_tmpl Demo.fs_tmpl_truncated
              {| f_name := "out/bad.html"; f_loc := ["out"; "bad.html"] |}
              Demo.parse_error
              [EvOpen "src/bad.html.tmpl"; EvRead "src/bad.html.tmpl";
               EvClose "src/bad.html.tmpl"]
              eq_refl eq_refl eq_refl) as (Hrun & Hempty & _).
  split; [exact Hrun|]. split; [reflexivity|exact Hempty].
Defined.

(** A walk with [TemplateCopy] as the copy function: the template is
    rendered under its name without [.tmpl], the plain file is copied
    under its own name, and the template that does not parse leaves an
    empty file behind. *)
Example B_Translate_templates :
  exists fs' tr,
    RevB.Translate 1 Demo.t_tmpl Demo.fs_tmpl = Some (None, fs', tr) /\
    file_bytes "site/page.html" fs' = Some (Demo.bytes "Hello, world") /\
    file_bytes "site/readme.txt" fs' = Some (Demo.bytes "read me") /\
    file_bytes "site/bad.html" fs' = Some [] /\
    exists_at "site/page.html.tmpl" fs' = false.
Proof. do 2 eexists. repeat split; vm_compute; reflexivity. Qed.

(* ================================================================== *)
(** * GetChildren *)
(* ================================================================== *)

Lemma ModeDir_bit : Z.testbit ModeDir 31 = true.
Proof. vm_compute. reflexivity. Qed.

Lemma ModePerm_bit : Z.testbit ModePerm 31 = false.
Proof. vm_compute. reflexivity. Qed.

Lemma file_mode_bit m : Z.testbit (file_mode m) 31 = false.
Proof.
  unfold file_mode. rewrite Z.lor_spec, Z.land_spec, ModePerm_bit.
  rewrite andb_false_r. destruct (Z.testbit m 9); reflexivity.
Qed.

Lemma IsDir_stat name n : IsDir (stat name n) = node_is_dir n.
Proof.
  destruct n as [m d|m es]; unfold IsDir, stat, Mode, node_is_dir.
  - apply file_mode_bit.
  - rewrite Z.lor_spec, ModeDir_bit. reflexivity.
Qed.

Lemma Name_stat name n : Name (stat name n) = name.
Proof. destruct n; reflexivity. Qed.

(** X1. On a directory that may be read and searched (or that is
    empty), [GetChildren] returns one entry per child, in the order of
    the directory, under the name of the child and flagged as a
    directory exactly for the directories; the error is [nil].  On a
    directory with entries that may be read but not searched it returns
    no entry and an error.  In both cases the file system is unchanged
    and the directory was opened, read and closed. *)
Theorem GetChildren_lists_directory (path : string) (fs : node)
    (p : loc) (m : Z) (es : list (string * node)) :
  resolve path fs = inr p ->
  lookup p fs = Some (Dir m es) ->
  readable m = true ->
  (searchable m = true \/ es = [] ->
   exists children,
     GetChildren path fs =
       Some ((children, None), fs,
             [EvOpen path; EvReaddir path; EvClose path]) /\
     map Name children = map fst es /\
     map IsDir children = map (fun e => node_is_dir (snd e)) es) /\
  (searchable m = false -> es <> [] ->
   exists e,
     GetChildren path fs =
       Some (([], Some e), fs,
             [EvOpen path; EvReaddir path; EvClose path])).
Proof.
  intros Hr Hl Hread. split.
  - intros Hs.
    exists (map (fun e => stat (fst e) (snd e)) es). split; [|split].
    + unfold GetChildren, bind, os_Open, File_Readdir, File_Close, emit, ret.
      rewrite Hr, Hl. simpl. rewrite Hread. simpl. rewrite Hl.
      destruct es as [|[k n] es]; [reflexivity|].
      destruct Hs as [->|Hs]; [reflexivity|discriminate].
    + rewrite map_map. apply map_ext. intros [k n]. apply Name_stat.
    + rewrite map_map. apply map_ext. intros [k n]. apply IsDir_stat.
  - intros Hs Hne.
    unfold GetChildren, bind, os_Open, File_Readdir, File_Close, emit, ret.
    rewrite Hr, Hl. simpl. rewrite Hread. simpl. rewrite Hl.
    destruct es as [|[k n] es]; [contradiction|].
    rewrite Hs. eauto.
Qed.

Lemma GetChildren_lists_directory_witness :
  (exists children,
     GetChildren "src" Demo.fs0 =
       Some ((children, None), Demo.fs0,
             [EvOpen "src"; EvReaddir "src"; EvClose "src"]) /\
     map Name children = ["a.txt"; "b.txt"; "d"] /\
     map IsDir children = [false; false; true]) /\
  (exists e,
     GetChildren "src"
       (Dir 493 [("src", Dir 292 [("a.txt", Reg 420 (Demo.bytes "A"))])]) =
       Some (([], Some e),
             Dir 493 [("src", Dir 292 [("a.txt", Reg 420 (Demo.bytes "A"))])],
             [EvOpen "src"; EvReaddir "src"; EvClose "src"])).
Proof.
  split.
  - exact (proj1 (GetChildren_lists_directory "src" Demo.fs0 ["src"] 493
                    [("a.txt", Reg 0 (Demo.bytes "A"));
                     ("b.txt", Reg 420 (Demo.bytes "B"));
                     ("d", Dir 493 [("f", Reg 420 (Demo.bytes "F"))])]
                    eq_refl eq_refl eq_refl) (or_introl eq_refl)).
  - apply (proj2 (GetChildren_lists_directory "src"
                    (Dir 493 [("src", Dir 292
                                 [("a.txt", Reg 420 (Demo.bytes "A"))])])
                    ["src"] 292 [("a.txt", Reg 420 (Demo.bytes "A"))]
                    eq_refl eq_refl eq_refl)).
    + reflexivity.
    + discriminate.
Defined.

(** X2. [GetChildren] of a name that leads to a regular file opens
    it, returns the error of [Readdir] with no entries, and has closed
    the file all the same.  [GetChildren] of a name that leads nowhere
    returns the error of [os.Open]; nothing was opened, so nothing is
    closed.  The file system is unchanged in both cases. *)
Theorem GetChildren_not_a_directory (path : string) (fs : node) (p : loc) :
  resolve path fs = inr p ->
  (forall m data,
     lookup p fs = Some (Reg m data) -> readable m = true ->
     GetChildren path fs =
       Some (([], Some (PathError "readdirent" path ENOTDIR)), fs,
             [EvOpen path; EvReaddir path; EvClose path])) /\
  (lookup p fs = None ->
   GetChildren path fs =
     Some (([], Some (PathError "open" path ENOENT)), fs, [EvOpen path])).
Proof.
  intros Hr. split.
  - intros m data Hl Hread.
    unfold GetChildren, bind, os_Open, File_Readdir, File_Close, emit, ret.
    rewrite Hr, Hl. simpl. rewrite Hread. simpl. rewrite Hl. reflexivity.
  - intros Hl. unfold GetChildren, bind, os_Open, ret.
    rewrite Hr, Hl. reflexivity.
Qed.

Lemma GetChildren_not_a_directory_witness :
  GetChildren "src/b.txt" Demo.fs0 =
    Some (([], Some (PathError "readdirent" "src/b.txt" ENOTDIR)), Demo.fs0,
          [EvOpen "src/b.txt"; EvReaddir "src/b.txt"; EvClose "src/b.txt"]) /\
  GetChildren "src/none" Demo.fs0 =
    Some (([], Some (PathError "open" "src/none" ENOENT)), Demo.fs0,
          [EvOpen "src/none"]).
Proof.
  split.
  - exact (proj1 (GetChildren_not_a_directory "src/b.txt" Demo.fs0
                    ["src"; "b.txt"] eq_refl)
             420 (Demo.bytes "B") eq_refl eq_refl).
  - exact (proj2 (GetChildren_not_a_directory "src/none" Demo.fs0
                    ["src"; "none"] eq_refl) eq_refl).
Defined.

(* ================================================================== *)
(** * More about the tree and the system calls *)
(* ================================================================== *)

Lemma upsert_upsert k v v' es :
  upsert k v (upsert k v' es) = upsert k v es.
Proof.
  induction es as [|[k0 n] rest IH]; simpl.
  - now rewrite String.eqb_refl.
  - destruct (String.eqb_spec k k0) as [->|Hne]; simpl.
    + now rewrite String.eqb_refl.
    + destruct (String.eqb_spec k k0); [contradiction|]. now rewrite IH.
Qed.

(** Of two [put]s at one place the later one counts. *)
Lemma put_put a b p : forall n, put p a (put p b n) = put p a n.
Proof.
  induction p as [|c p' IH]; intros n; [reflexivity|].
  destruct n as [m d|m es]; [reflexivity|].
  simpl. destruct (assoc c es) as [n'|] eqn:Hc.
  - simpl. rewrite assoc_upsert_same, upsert_upsert, IH. reflexivity.
  - destruct p' as [|c2 p''].
    + simpl. rewrite assoc_upsert_same, upsert_upsert. reflexivity.
    + simpl. now rewrite Hc.
Qed.

(** What is found where [put] put something is what it put. *)
Lemma lookup_put_inj x y p :
  forall n, lookup p (put p x n) = Some y -> x = y.
Proof.
  induction p as [|c p IH]; intros n H.
  - simpl in H. congruence.
  - destruct n as [m0 d0|m0 es0]; [discriminate|].
    simpl in H. destruct (assoc c es0) as [n'|] eqn:Hc.
    + simpl in H. rewrite assoc_upsert_same in H. eauto.
    + destruct p as [|c2 p'].
      * simpl in H. rewrite assoc_upsert_same in H. congruence.
      * simpl in H. rewrite Hc in H. discriminate.
Qed.

Lemma closes_app tr1 tr2 : closes (tr1 ++ tr2) = (closes tr1 ++ closes tr2)%list.
Proof.
  induction tr1 as [|ev tr1 IH]; [reflexivity|].
  destruct ev; simpl; now rewrite IH.
Qed.

(** The permission bits of a file [os.Create] opened allow reading and
    writing. *)
Lemma os_Create_ok_perm name fs out fs1 tr :
  os_Create name fs = Some (Ok out, fs1, tr) ->
  exists m, fs1 = put (f_loc out) (Reg m []) fs /\
            readable m && writable m = true.
Proof.
  unfold os_Create. intros H.
  destruct (resolve name fs) as [e0|p] eqn:Hr; [now inversion H|].
  destruct (lookup p fs) as [[m d|m es]|] eqn:Hl; [|now inversion H|].
  - destruct (readable m && writable m) eqn:Hrw; inversion H; subst; simpl.
    eauto.
  - destruct (lookup (removelast p) fs) as [[m d|m es]|] eqn:Hp;
      try now inversion H.
    destruct (writable m); inversion H; subst; simpl.
    eexists. split; reflexivity.
Qed.

(** [os.Create] of a name that leads to a regular file which may be
    read and written. *)
Lemma os_Create_existing name fs p m data :
  resolve name fs = inr p ->
  lookup p fs = Some (Reg m data) ->
  readable m && writable m = true ->
  os_Create name fs =
    Some (Ok {| f_name := name; f_loc := p |}, put p (Reg m []) fs,
          [EvCreate name]).
Proof.
  intros Hr Hl Hrw. unfold os_Create. now rewrite Hr, Hl, Hrw.
Qed.

Lemma os_Open_existing name fs p n :
  resolve name fs = inr p ->
  lookup p fs = Some n ->
  readable (perm_of n) = true ->
  os_Open name fs =
    Some (Ok {| f_name := name; f_loc := p |}, fs, [EvOpen name]).
Proof.
  intros Hr Hl Hrd. unfold os_Open. now rewrite Hr, Hl, Hrd.
Qed.

Lemma os_Open_readable name fs f fs1 tr :
  os_Open name fs = Some (Ok f, fs1, tr) ->
  f = {| f_name := name; f_loc := f_loc f |} /\
  exists n, lookup (f_loc f) fs = Some n /\ readable (perm_of n) = true.
Proof.
  unfold os_Open. intros H. injection H as H _ _.
  destruct (resolve name fs) as [e|p]; [discriminate|].
  destruct (lookup p fs) as [n|] eqn:Hl; [|discriminate].
  destruct (readable (perm_of n)) eqn:Hrd; [|discriminate].
  injection H as <-. simpl. eauto.
Qed.

(** [io.Copy] from something that is not a regular file fails, and
    writes nothing. *)
Lemma io_Copy_read_fail dst src fs :
  (forall m data, lookup (f_loc src) fs <> Some (Reg m data)) ->
  exists e,
    io_Copy dst src fs = Some ((0, Some e), fs, [EvRead (f_name src)]).
Proof.
  intros Hnr. unfold io_Copy, bind, File_ReadAll, ret.
  destruct (lookup (f_loc src) fs) as [[m d|m es]|] eqn:Hl.
  - exfalso. eapply Hnr. reflexivity.
  - eexists. reflexivity.
  - eexists. reflexivity.
Qed.

Lemma io_Copy_closes dst src fs r fs1 tr :
  io_Copy dst src fs = Some (r, fs1, tr) -> closes tr = [].
Proof.
  unfold io_Copy, bind, File_ReadAll, File_Write, ret. intros H.
  destruct (lookup (f_loc src) fs) as [[ms data|ms es]|];
    try (inversion H; reflexivity).
  destruct (lookup (f_loc dst) fs) as [[md old|md es]|];
    inversion H; reflexivity.
Qed.

(** [io.Copy] changes the destination only. *)
Lemma io_Copy_frame dst src fs r fs1 tr :
  io_Copy dst src fs = Some (r, fs1, tr) ->
  keeps_dirs fs fs1 /\
  forall q m d,
    lookup q fs = Some (Reg m d) -> q <> f_loc dst ->
    lookup q fs1 = Some (Reg m d).
Proof.
  destruct r as [n [e|]]; intros H.
  - apply io_Copy_fail in H as ->. split; [apply keeps_dirs_refl|auto].
  - apply io_Copy_ok in H as (ms & data & md & old & _ & Hd & -> & _).
    assert (Hnd : forall m' es', lookup (f_loc dst) fs <> Some (Dir m' es'))
      by (intros m' es'; congruence).
    split; [now apply keeps_dirs_put|].
    intros q m d Hq Hne. now apply lookup_put_frame.
Qed.

(** The three ways a call of [ColdCopy] can go. *)
Lemma ColdCopy_inv (Data : Type) source target fi (data : option Data)
    fs res fs' tr :
  ColdCopy source target fi data fs = Some (res, fs', tr) ->
  (exists e,
     os_Open source fs = Some (Fail e, fs, [EvOpen source]) /\
     res = Some e /\ fs' = fs /\ tr = [EvOpen source]) \/
  (exists in_ e,
     os_Open source fs = Some (Ok in_, fs, [EvOpen source]) /\
     os_Create target fs = Some (Fail e, fs, [EvCreate target]) /\
     res = Some e /\ fs' = fs /\
     tr = [EvOpen source; EvCreate target; EvClose source]) \/
  (exists in_ out fs1 n ctr,
     os_Open source fs = Some (Ok in_, fs, [EvOpen source]) /\
     os_Create target fs = Some (Ok out, fs1, [EvCreate target]) /\
     io_Copy out in_ fs1 = Some ((n, res), fs', ctr) /\
     tr = ([EvOpen source; EvCreate target] ++ ctr ++
           [EvClose target; EvClose source])%list).
Proof.
  intros H.
  destruct (os_Open_total source fs) as [[in_|e] Ho].
  - destruct (os_Create_total target fs) as [[out|e] [fs1 Hc]].
    + destruct (io_Copy_total out in_ fs1) as (n & err & fs2 & ctr & Hio).
      rewrite (ColdCopy_copy _ _ _ fi data _ _ _ _ _ _ _ _ Ho Hc Hio) in H.
      injection H as <- <- <-. right. right. eauto 10.
    + pose proof (os_Create_fail _ _ _ _ _ Hc) as [-> _].
      rewrite (ColdCopy_create_fail _ _ _ fi data _ _ _ Ho Hc) in H.
      injection H as <- <- <-. right. left. eauto 10.
  - rewrite (ColdCopy_open_fail _ _ _ fi data _ _ Ho) in H.
    injection H as <- <- <-. left. eauto 10.
Qed.

(* ================================================================== *)
(** * ColdCopy: what it leaves alone, what it closes, running it twice *)
(* ================================================================== *)

Lemma ColdCopy_changes_target_only (Data : Type) (source target : string)
    (fi : option FileInfo) (data : option Data)
    (fs : node) (res : option error) (fs' : node) (tr : list Event) :
  ColdCopy source target fi data fs = Some (res, fs', tr) ->
  keeps_dirs fs fs' /\
  forall other bytes,
    file_bytes other fs = Some bytes ->
    resolve other fs <> resolve target fs ->
    file_bytes other fs' = Some bytes.
Proof.
  intros H.
  destruct (ColdCopy_inv _ _ _ _ _ _ _ _ _ H)
    as [(e & _ & _ & -> & _)
       |[(in_ & e & _ & _ & _ & -> & _)
        |(in_ & out & fs1 & n & ctr & Ho & Hc & Hio & _)]];
    try (split; [apply keeps_dirs_refl|auto]).
  pose proof (os_Create_keeps _ _ _ _ _ Hc) as Hk1.
  destruct (io_Copy_frame _ _ _ _ _ _ Hio) as [Hk2 Hfr].
  split; [eapply keeps_dirs_trans; eauto|].
  intros other bytes Hb Hne.
  pose proof (os_Create_frame _ _ _ _ _ _ _ Hc Hb Hne) as Hb1.
  apply os_Create_ok in Hc as (_ & _ & Hrt & _).
  unfold file_bytes in Hb, Hb1 |- *.
  destruct (resolve other fs) as [e|p] eqn:Hro; [discriminate|].
  rewrite (resolve_keeps _ _ _ _ Hk1 Hro) in Hb1.
  rewrite (resolve_keeps _ _ _ _ (keeps_dirs_trans _ _ _ Hk1 Hk2) Hro).
  destruct (lookup p fs1) as [[m d|m es]|] eqn:Hl; try discriminate.
  rewrite (Hfr _ _ _ Hl); [exact Hb1|congruence].
Qed.

(** X4. [ColdCopy] creates the target before it copies.  When the
    source is a directory, the open and the create succeed and the copy
    fails: [ColdCopy] returns an error, both files are closed, and the
    target is there and empty, whatever it held before. *)
Theorem ColdCopy_of_directory (Data : Type) (source target : string)
    (fi : option FileInfo) (data : option Data)
    (fs fs1 : node) (in_ out : File) :
  is_dir source fs = true ->
  os_Open source fs = Some (Ok in_, fs, [EvOpen source]) ->
  os_Create target fs = Some (Ok out, fs1, [EvCreate target]) ->
  exists e tr,
    ColdCopy source target fi data fs = Some (Some e, fs1, tr) /\
    closes tr = [target; source] /\
    file_bytes target fs1 = Some [].
Proof.
  intros Hdir Ho Hc.
  pose proof (os_Open_ok _ _ _ _ _ Ho) as (_ & _ & Hn & Hrs & _).
  pose proof (os_Create_keeps _ _ _ _ _ Hc) as Hk.
  pose proof (os_Create_ok _ _ _ _ _ Hc) as (_ & _ & Hrt & _ & m & _ & Hl).
  unfold is_dir in Hdir. rewrite Hrs in Hdir.
  destruct (lookup (f_loc in_) fs) as [[ms d|ms es]|] eqn:Hsrc;
    try discriminate.
  destruct (Hk _ _ _ Hsrc) as [es' Hsrc1].
  destruct (io_Copy_read_fail out in_ fs1) as (e & Hio).
  { intros m' d'. congruence. }
  exists e. eexists. split; [|split].
  - rewrite (ColdCopy_copy _ _ _ fi data _ _ _ _ _ _ _ _ Ho Hc Hio).
    reflexivity.
  - reflexivity.
  - unfold file_bytes. now rewrite (resolve_keeps _ _ _ _ Hk Hrt), Hl.
Qed.

Lemma ColdCopy_of_directory_witness :
  exists e fs1 tr,
    ColdCopy (Data:=list byte) "src/d" "out/b.txt" None None Demo.fs_copied =
      Some (Some e, fs1, tr) /\
    closes tr = ["out/b.txt"; "src/d"] /\
    file_bytes "out/b.txt" Demo.fs_copied = Some (Demo.bytes "B") /\
    file_bytes "out/b.txt" fs1 = Some [].
Proof.
  destruct (ColdCopy_of_directory (list byte) "src/d" "out/b.txt" None None
              Demo.fs_copied _ _ _ eq_refl eq_refl eq_refl)
    as (e & tr & Hrun & Hcl & He).
  exists e. eexists. exists tr.
  split; [exact Hrun|]. split; [exact Hcl|]. split; [reflexivity|exact He].
Defined.

(** X5. A second [ColdCopy] of the same source onto the same target
    changes nothing: when the first call returned [nil] and source and
    target are different files, the second returns [nil] too, with the
    same system calls, and leaves the file system the first call left. *)
Theorem ColdCopy_twice (Data : Type) (source target : string)
    (fi : option FileInfo) (data : option Data)
    (fs fs1 : node) (tr : list Event) :
  ColdCopy source target fi data fs = Some (None, fs1, tr) ->
  resolve source fs <> resolve target fs ->
  ColdCopy source target fi data fs1 = Some (None, fs1, tr).
Proof.
  intros H Hne.
  destruct (ColdCopy_inv _ _ _ _ _ _ _ _ _ H)
    as [(e & _ & He & _)
       |[(in_ & e & _ & _ & He & _)
        |(in_ & out & fsa & n & ctr & Ho & Hc & Hio & Htr)]];
    try discriminate.
  pose proof (os_Open_ok _ _ _ _ _ Ho) as (_ & _ & _ & Hrs & _).
  pose proof (os_Open_readable _ _ _ _ _ Ho) as (Hin & nsrc & Hsrc & Hrd).
  pose proof (os_Create_keeps _ _ _ _ _ Hc) as Hk1.
  pose proof (os_Create_ok _ _ _ _ _ Hc)
    as (_ & Hon & Hrt & Hnd & m & Hfsa & Hla).
  pose proof (os_Create_ok_perm _ _ _ _ _ Hc) as (m' & Hfsa' & Hrw).
  assert (m' = m) as ->.
  { rewrite Hfsa' in Hla. apply lookup_put_inj in Hla. congruence. }
  pose proof (io_Copy_ok _ _ _ _ _ _ Hio)
    as (ms & bytes & md & old & Hrd1 & Hwr & Hfs1 & Hctr).
  rewrite Hla in Hwr. injection Hwr as <- <-. simpl in Hfs1.
  assert (Hloc : f_loc in_ <> f_loc out) by congruence.
  (* the source is a regular file, before and after *)
  assert (Hsrc0 : lookup (f_loc in_) fs = Some (Reg ms bytes)).
  { destruct nsrc as [m0 d0|m0 es0].
    - pose proof (lookup_put_frame (Reg m []) (f_loc out) _ _ _ _
                    Hsrc Hloc Hnd) as H1.
      rewrite <- Hfsa, Hrd1 in H1. congruence.
    - destruct (lookup_put_dir (Reg m []) (f_loc out) _ _ _ _ Hsrc Hnd)
        as [es' H1].
      rewrite <- Hfsa, Hrd1 in H1. discriminate. }
  rewrite Hsrc0 in Hsrc. injection Hsrc as <-. simpl in Hrd.
  assert (Hk2 : keeps_dirs fsa fs1).
  { subst fs1. apply keeps_dirs_put. intros a b. congruence. }
  pose proof (keeps_dirs_trans _ _ _ Hk1 Hk2) as Hk.
  assert (Ht1 : lookup (f_loc out) fs1 = Some (Reg m bytes)).
  { subst fs1. eapply lookup_put_here; eauto. }
  assert (Hs1 : lookup (f_loc in_) fs1 = Some (Reg ms bytes)).
  { subst fs1. apply lookup_put_frame; [exact Hrd1|exact Hloc|].
    intros a b. congruence. }
  (* the second run *)
  assert (Ho2 : os_Open source fs1 = Some (Ok in_, fs1, [EvOpen source])).
  { rewrite Hin at 1.
    eapply os_Open_existing;
      [eapply resolve_keeps; eauto|exact Hs1|exact Hrd]. }
  assert (Hc2 : os_Create target fs1 =
                Some (Ok out, put (f_loc out) (Reg m []) fs1,
                      [EvCreate target])).
  { replace out with {| f_name := target; f_loc := f_loc out |} at 1
      by (destruct out; simpl in *; congruence).
    eapply os_Create_existing;
      [eapply resolve_keeps; eauto|exact Ht1|exact Hrw]. }
  assert (Hio2 : io_Copy out in_ (put (f_loc out) (Reg m []) fs1) =
                 Some ((n, None), fs1, ctr)).
  { unfold io_Copy, bind, File_ReadAll, File_Write, ret.
    erewrite lookup_put_frame;
      [|exact Hs1|exact Hloc|intros a b; congruence].
    erewrite lookup_put_here by eauto.
    simpl. rewrite put_put.
    replace (put (f_loc out) (Reg m bytes) fs1) with fs1
      by (rewrite Hfs1 at 2; now rewrite put_put).
    unfold io_Copy, bind, File_ReadAll, File_Write, ret in Hio.
    rewrite Hrd1, Hla in Hio. simpl in Hio.
    injection Hio as Hn _ Hc'. now rewrite <- Hn, <- Hc'. }
  rewrite (ColdCopy_copy _ _ _ fi data _ _ _ _ _ _ _ _ Ho2 Hc2 Hio2).
  now rewrite Htr.
Qed.

Lemma ColdCopy_twice_witness :
  exists fs1 tr,
    ColdCopy (Data:=list byte) "src/b.txt" "out/b.txt" None None Demo.fs_out =
      Some (None, fs1, tr) /\
    ColdCopy (Data:=list byte) "src/b.txt" "out/b.txt" None None fs1 =
      Some (None, fs1, tr).
Proof.
  destruct (ColdCopy (Data:=list byte) "src/b.txt" "out/b.txt" None None
              Demo.fs_out) as [[[res fs1] tr]|] eqn:Hrun;
    [|vm_compute in Hrun; discriminate].
  assert (Hres : res = None).
  { pose proof Hrun as H. vm_compute in H. congruence. }
  subst res. exists fs1, tr. split; [reflexivity|].
  apply (ColdCopy_twice _ _ _ _ _ _ _ _ Hrun).
  vm_compute. discriminate.
Defined.

(** X6. [ColdCopy] closes what it opened, on every way out: the
    source when the open succeeded, and before it the target when the
    create succeeded too; nothing else, and nothing twice. *)
Theorem ColdCopy_closes_what_it_opened (Data : Type)
    (source target : string) (fi : option FileInfo) (data : option Data)
    (fs : node) (res : option error) (fs' : node) (tr : list Event) :
  ColdCopy source target fi data fs = Some (res, fs', tr) ->
  closes tr =
    ((if opens_ok source fs && creates_ok target fs then [target] else []) ++
     (if opens_ok source fs then [source] else []))%list.
Proof.
  intros H. unfold opens_ok, creates_ok.
  destruct (ColdCopy_inv _ _ _ _ _ _ _ _ _ H)
    as [(e & Ho & _ & _ & ->)
       |[(in_ & e & Ho & Hc & _ & _ & ->)
        |(in_ & out & fs1 & n & ctr & Ho & Hc & Hio & ->)]];
    rewrite Ho; try rewrite Hc; try reflexivity.
  simpl. rewrite closes_app, (io_Copy_closes _ _ _ _ _ _ Hio). reflexivity.
Qed.

Lemma ColdCopy_closes_witness :
  (exists res fs' tr,
     ColdCopy (Data:=list byte) "src/b.txt" "out/b.txt" None None
       Demo.fs_out = Some (res, fs', tr) /\
     closes tr = ["out/b.txt"; "src/b.txt"]) /\
  (exists res fs' tr,
     ColdCopy (Data:=list byte) "src/b.txt" "none/b.txt" None None
       Demo.fs_out = Some (res, fs', tr) /\
     closes tr = ["src/b.txt"]) /\
  (exists res fs' tr,
     ColdCopy (Data:=list byte) "src/a.txt" "out/a.txt" None None
       Demo.fs_out = Some (res, fs', tr) /\
     closes tr = []).
Proof.
  repeat split.
  - destruct (ColdCopy (Data:=list byte) "src/b.txt" "out/b.txt" None None
                Demo.fs_out) as [[[res fs'] tr]|] eqn:Hrun;
      [|vm_compute in Hrun; discriminate].
    exists res, fs', tr. split; [reflexivity|].
    exact (ColdCopy_closes_what_it_opened _ _ _ _ _ _ _ _ _ Hrun).
  - destruct (ColdCopy (Data:=list byte) "src/b.txt" "none/b.txt" None None
                Demo.fs_out) as [[[res fs'] tr]|] eqn:Hrun;
      [|vm_compute in Hrun; discriminate].
    exists res, fs', tr. split; [reflexivity|].
    exact (ColdCopy_closes_what_it_opened _ _ _ _ _ _ _ _ _ Hrun).
  - destruct (ColdCopy (Data:=list byte) "src/a.txt" "out/a.txt" None None
                Demo.fs_out) as [[[res fs'] tr]|] eqn:Hrun;
      [|vm_compute in Hrun; discriminate].
    exists res, fs', tr. split; [reflexivity|].
    exact (ColdCopy_closes_what_it_opened _ _ _ _ _ _ _ _ _ Hrun).
Defined.

(* ================================================================== *)
(** * TemplateCopy: what it leaves alone and what it closes *)
(* ================================================================== *)

Section TemplateMore.
Variables Data Template : Type.
Variable parse : string -> list byte -> result Template.
Variable render : Template -> option Data -> list byte * option error.

Lemma template_ParseFiles_closes name fs r fs1 ptr :
  RevB.template_ParseFiles parse name fs = Some (r, fs1, ptr) ->
  fs1 = fs /\
  closes ptr = if opens_ok name fs then [name] else [].
Proof.
  unfold RevB.template_ParseFiles, os_ReadFile, bind, opens_ok.
  destruct (os_Open_total name fs) as [[f|e] Ho]; rewrite Ho.
  - apply os_Open_ok in Ho as (_ & _ & Hn & _).
    unfold File_ReadAll, File_Close, emit, ret. rewrite Hn. simpl.
    destruct (lookup (f_loc f) fs) as [[m d|m es]|]; simpl;
      intros H; inversion H; subst; auto.
  - simpl. intros H. inversion H. auto.
Qed.

(** The three ways a call of [TemplateCopy] on a template can go. *)
Lemma TemplateCopy_inv source target fi data fs res fs' tr :
  strings_HasSuffix source ".tmpl" = true ->
  RevB.TemplateCopy parse render source target fi data fs =
    Some (res, fs', tr) ->
  let out_name := strings_TrimSuffix target ".tmpl" in
  (exists e,
     os_Create out_name fs = Some (Fail e, fs, [EvCreate out_name]) /\
     res = Some e /\ fs' = fs /\ tr = [EvCreate out_name]) \/
  (exists out fs1 ptr,
     os_Create out_name fs = Some (Ok out, fs1, [EvCreate out_name]) /\
     ((exists e,
         RevB.template_ParseFiles parse source fs1 =
           Some (Fail e, fs1, ptr) /\
         res = Some e /\ fs' = fs1 /\
         tr = (EvCreate out_name :: ptr ++ [EvClose out_name])%list) \/
      (exists tmpl m,
         RevB.template_ParseFiles parse source fs1 =
           Some (Ok tmpl, fs1, ptr) /\
         lookup (f_loc out) fs1 = Some (Reg m []) /\
         res = snd (render tmpl data) /\
         fs' = put (f_loc out) (Reg m (fst (render tmpl data))) fs1 /\
         tr = (EvCreate out_name :: ptr ++
               [EvWrite out_name (fst (render tmpl data));
                EvClose out_name])%list))).
Proof.
  intros Hsuf H out_name.
  destruct (os_Create_total out_name fs) as [[out|e] [fs1 Hc]].
  - right. exists out, fs1.
    destruct (template_ParseFiles_spec _ parse source fs1)
      as (r & ptr & Hp & _ & _).
    exists ptr. split; [exact Hc|].
    destruct r as [tmpl|e].
    + right.
      pose proof (os_Create_ok _ _ _ _ _ Hc) as (_ & Hn & _ & _ & m & _ & Hl).
      exists tmpl, m. split; [exact Hp|]. split; [exact Hl|].
      unfold RevB.TemplateCopy, bind in H. rewrite Hsuf in H. simpl in H.
      fold out_name in H. rewrite Hc, Hp in H.
      unfold RevB.Template_Execute in H.
      destruct (render tmpl data) as [text err]. simpl in H |- *.
      unfold bind, File_Write, File_Close, emit, ret in H.
      rewrite Hl, Hn in H. simpl in H.
      injection H as <- <- <-. auto.
    + left. exists e. split; [exact Hp|].
      rewrite (TemplateCopy_parse_fail _ _ parse render _ _ fi data
                 _ _ _ _ _ Hsuf Hc Hp) in H.
      injection H as <- <- <-. auto.
  - left. exists e.
    pose proof (os_Create_fail _ _ _ _ _ Hc) as [-> _].
    rewrite (TemplateCopy_create_fail _ _ parse render _ _ fi data
               _ _ Hsuf Hc) in H.
    injection H as <- <- <-. auto.
Qed.

Lemma TemplateCopy_changes_target_only source target fi data
    fs res fs' tr :
  RevB.TemplateCopy parse render source target fi data fs =
    Some (res, fs', tr) ->
  let written :=
    if strings_HasSuffix source ".tmpl"
    then strings_TrimSuffix target ".tmpl" else target in
  keeps_dirs fs fs' /\
  forall other bytes,
    file_bytes other fs = Some bytes ->
    resolve other fs <> resolve written fs ->
    file_bytes other fs' = Some bytes.
Proof.
  intros H written. subst written.
  destruct (strings_HasSuffix source ".tmpl") eqn:Hsuf.
  - destruct (TemplateCopy_inv _ _ _ _ _ _ _ _ Hsuf H)
      as [(e & _ & _ & -> & _)
         |(out & fs1 & ptr & Hc &
           [(e & _ & _ & -> & _)|(tmpl & m & _ & Hl & _ & -> & _)])].
    + split; [apply keeps_dirs_refl|auto].
    + split; [eapply os_Create_keeps; eauto|].
      intros other bytes Hb Hne. eapply os_Create_frame; eauto.
    + pose proof (os_Create_keeps _ _ _ _ _ Hc) as Hk1.
      assert (Hk2 : keeps_dirs fs1
                      (put (f_loc out) (Reg m (fst (render tmpl data))) fs1)).
      { apply keeps_dirs_put. intros a b. congruence. }
      split; [eapply keeps_dirs_trans; eauto|].
      intros other bytes Hb Hne.
      pose proof (os_Create_frame _ _ _ _ _ _ _ Hc Hb Hne) as Hb1.
      apply os_Create_ok in Hc as (_ & _ & Hrt & _).
      unfold file_bytes in Hb, Hb1 |- *.
      destruct (resolve other fs) as [e|p] eqn:Hro; [discriminate|].
      rewrite (resolve_keeps _ _ _ _ Hk1 Hro) in Hb1.
      rewrite (resolve_keeps _ _ _ _ (keeps_dirs_trans _ _ _ Hk1 Hk2) Hro).
      destruct (lookup p fs1) as [[m0 d0|m0 es0]|] eqn:Hl0; try discriminate.
      erewrite lookup_put_frame; eauto; congruence.
  - rewrite TemplateCopy_plain in H by exact Hsuf.
    eapply ColdCopy_changes_target_only; eauto.
Qed.

Lemma TemplateCopy_closes source target fi data fs res fs' tr :
  strings_HasSuffix source ".tmpl" = true ->
  RevB.TemplateCopy parse render source target fi data fs =
    Some (res, fs', tr) ->
  let out_name := strings_TrimSuffix target ".tmpl" in
  match os_Create out_name fs with
  | Some (Ok _, fs1, _) =>
      closes tr =
        ((if opens_ok source fs1 then [source] else []) ++ [out_name])%list
  | _ => tr = [EvCreate out_name] /\ fs' = fs
  end.
Proof.
  intros Hsuf H out_name.
  destruct (TemplateCopy_inv _ _ _ _ _ _ _ _ Hsuf H)
    as [(e & Hc & _ & -> & ->)
       |(out & fs1 & ptr & Hc &
         [(e & Hp & _ & _ & ->)|(tmpl & m & Hp & _ & _ & _ & ->)])];
    fold out_name in Hc; rewrite Hc; [auto| |].
  - destruct (template_ParseFiles_closes _ _ _ _ _ Hp) as [_ Hcl].
    simpl. now rewrite closes_app, Hcl.
  - destruct (template_ParseFiles_closes _ _ _ _ _ Hp) as [_ Hcl].
    simpl. now rewrite closes_app, Hcl.
Qed.

End TemplateMore.

(** X8. On a template, [TemplateCopy] creates the target first: when
    that fails, nothing else is attempted, the source is not opened and
    the file system is unchanged.  Once the target is created it is
    closed on every way out, and it is the last thing closed. *)
Theorem TemplateCopy_closes_target (Data Template : Type)
    (parse : string -> list byte -> result Template)
    (render : Template -> option Data -> list byte * option error)
    (source target : string) (fi : option FileInfo) (data : option Data)
    (fs : node) (res : option error) (fs' : node) (tr : list Event) :
  strings_HasSuffix source ".tmpl" = true ->
  RevB.TemplateCopy parse render source target fi data fs =
    Some (res, fs', tr) ->
  let out_name := strings_TrimSuffix target ".tmpl" in
  match os_Create out_name fs with
  | Some (Ok _, fs1, _) =>
      closes tr =
        ((if opens_ok source fs1 then [source] else []) ++ [out_name])%list
  | _ => tr = [EvCreate out_name] /\ fs' = fs
  end.
Proof. apply TemplateCopy_closes. Qed.

Lemma TemplateCopy_closes_target_witness :
  (exists res fs' tr,
     RevB.TemplateCopy Demo.toy_Parse Demo.toy_Render
       "src/bad.html.tmpl" "out/bad.html.tmpl" None
       (Some (Demo.bytes "world")) Demo.fs_tmpl = Some (res, fs', tr) /\
     closes tr = ["src/bad.html.tmpl"; "out/bad.html"]) /\
  (exists res tr,
     RevB.TemplateCopy Demo.toy_Parse Demo.toy_Render
       "src/page.html.tmpl" "none/page.html.tmpl" None
       (Some (Demo.bytes "world")) Demo.fs_tmpl =
       Some (res, Demo.fs_tmpl, tr) /\
     tr = [EvCreate "none/page.html"]).
Proof.
  split.
  - destruct (RevB.TemplateCopy Demo.toy_Parse Demo.toy_Render
                "src/bad.html.tmpl" "out/bad.html.tmpl" None
                (Some (Demo.bytes "world")) Demo.fs_tmpl)
      as [[[res fs'] tr]|] eqn:Hrun; [|vm_compute in Hrun; discriminate].
    exists res, fs', tr. split; [reflexivity|].
    pose proof (fun Hs => TemplateCopy_closes_target _ _ _ _ _ _ _ _ _ _ _ _
                            Hs Hrun) as Hx.
    exact (Hx eq_refl).
  - destruct (RevB.TemplateCopy Demo.toy_Parse Demo.toy_Render
                "src/page.html.tmpl" "none/page.html.tmpl" None
                (Some (Demo.bytes "world")) Demo.fs_tmpl)
      as [[[res fs'] tr]|] eqn:Hrun; [|vm_compute in Hrun; discriminate].
    pose proof (fun Hs => TemplateCopy_closes_target _ _ _ _ _ _ _ _ _ _ _ _
                            Hs Hrun) as Hx.
    destruct (Hx eq_refl) as [Htr Hfs].
    exists res, tr. rewrite <- Hfs. split; [reflexivity|exact Htr].
Defined.

(* ================================================================== *)
(** * The walk as a whole *)
(* ================================================================== *)

Ltac events :=
  repeat first [apply Forall_nil | apply Forall_cons];
  simpl; eauto.

Lemma io_Copy_events dst src fs r fs1 tr :
  io_Copy dst src fs = Some (r, fs1, tr) ->
  Forall (copy_event (f_name src) (f_name dst)) tr.
Proof.
  unfold io_Copy, bind, File_ReadAll, File_Write, ret. intros H.
  destruct (lookup (f_loc src) fs) as [[ms data|ms es]|];
    try (inversion H; events).
  destruct (lookup (f_loc dst) fs) as [[md old|md es]|];
    inversion H; events.
Qed.

(** The system calls of [ColdCopy] name the source and the target and
    nothing else. *)
Lemma ColdCopy_events (Data : Type) source target fi (data : option Data)
    fs res fs' tr :
  ColdCopy source target fi data fs = Some (res, fs', tr) ->
  Forall (copy_event source target) tr.
Proof.
  intros H.
  destruct (ColdCopy_inv _ _ _ _ _ _ _ _ _ H)
    as [(e & _ & _ & _ & ->)
       |[(in_ & e & _ & _ & _ & _ & ->)
        |(in_ & out & fs1 & n & ctr & Ho & Hc & Hio & ->)]].
  - events.
  - events.
  - apply os_Open_ok in Ho as (_ & _ & Hn & _).
    apply os_Create_ok in Hc as (_ & Hm & _).
    apply io_Copy_events in Hio. rewrite Hn, Hm in Hio.
    apply Forall_cons; [reflexivity|]. apply Forall_cons; [reflexivity|].
    apply Forall_app. split; [exact Hio|]. events.
Qed.

Lemma ColdCopy_returns (Data : Type) source target fi (data : option Data) fs :
  exists r, ColdCopy source target fi data fs = Some r.
Proof.
  destruct (os_Open_total source fs) as [[in_|e] Ho].
  - destruct (os_Create_total target fs) as [[out|e] [fs1 Hc]].
    + destruct (io_Copy_total out in_ fs1) as (n & err & fs2 & ctr & Hio).
      rewrite (ColdCopy_copy _ _ _ fi data _ _ _ _ _ _ _ _ Ho Hc Hio). eauto.
    + pose proof (os_Create_fail _ _ _ _ _ Hc) as [-> _].
      rewrite (ColdCopy_create_fail _ _ _ fi data _ _ _ Ho Hc). eauto.
  - rewrite (ColdCopy_open_fail _ _ _ fi data _ _ Ho). eauto.
Qed.

Lemma os_Mkdir_trace name perm fs merr fs2 tr :
  os_Mkdir name perm fs = Some (merr, fs2, tr) -> tr = [EvMkdir name perm].
Proof.
  intros H. destruct (os_Mkdir_total name perm fs) as (e & fs1 & H').
  congruence.
Qed.

Lemma os_Mkdir_keeps name perm fs merr fs2 tr :
  os_Mkdir name perm fs = Some (merr, fs2, tr) -> keeps_dirs fs fs2.
Proof.
  destruct merr as [e|]; intros H.
  - apply os_Mkdir_fail in H as ->. apply keeps_dirs_refl.
  - now apply os_Mkdir_ok in H.
Qed.

Section WalkInvariant.
Variable Data : Type.
Variable fatal : option error -> bool.
Variable copyDir : nat -> Translator Data -> string -> M (option error).
Hypothesis Hsteps : CopyDir_steps fatal copyDir.
Hypothesis Hzero : forall t subpath fs, copyDir O t subpath fs = None.

Variable t : Translator Data.

(** A property of runs: of the file system before, the file system
    after and the trace. *)
Variable P : node -> node -> list Event -> Prop.
Hypothesis P_nil : forall fs, P fs fs [].
Hypothesis P_app :
  forall fs fs1 fs2 tr1 tr2,
    P fs fs1 tr1 -> P fs1 fs2 tr2 -> P fs fs2 (tr1 ++ tr2)%list.
Hypothesis P_list :
  forall subpath fs r fs1 tr,
    GetChildren (path_Join [Source t; subpath]) fs = Some (r, fs1, tr) ->
    P fs fs1 tr.
Hypothesis P_mkdir :
  forall subpath fs merr fs2 tr,
    os_Mkdir (path_Join [Target t; subpath]) (DirMode t) fs =
      Some (merr, fs2, tr) ->
    P fs fs2 tr.
Hypothesis P_copy :
  forall subpath fi fs res fs' tr,
    CopyFile t subpath fi fs = Some (res, fs', tr) -> P fs fs' tr.

Lemma for_each_inv {A} (body : A -> M unit) :
  (forall x fs u fs' tr, body x fs = Some (u, fs', tr) -> P fs fs' tr) ->
  forall xs fs u fs' tr,
    for_each xs body fs = Some (u, fs', tr) -> P fs fs' tr.
Proof.
  intros Hb. induction xs as [|x rest IH]; intros fs u fs' tr H; simpl in H.
  - injection H as _ <- <-. apply P_nil.
  - unfold bind in H.
    destruct (body x fs) as [[[u1 fs1] tr1]|] eqn:Hx; [|discriminate].
    destruct (for_each rest body fs1) as [[[u2 fs2] tr2]|] eqn:Hr;
      [|discriminate].
    injection H as _ <- <-. eapply P_app; eauto.
Qed.

(** A property that holds of the listing, of [os.Mkdir] and of
    [CopyFile], and that goes through sequencing, holds of every run of
    [CopyDir]. *)
Lemma CopyDir_run_inv :
  forall fuel subpath fs res fs' tr,
    copyDir fuel t subpath fs = Some (res, fs', tr) -> P fs fs' tr.
Proof.
  induction fuel as [|fuel IH]; intros subpath fs res fs' tr H.
  - rewrite Hzero in H. discriminate.
  - destruct (Hsteps fuel t subpath fs)
      as (children & lerr & ltr & Hg & _ & Hrest).
    pose proof (P_list _ _ _ _ _ Hg) as Pl.
    destruct lerr as [e|].
    + rewrite Hrest in H. injection H as _ <- <-. exact Pl.
    + destruct Hrest as (merr & fs2 & Hm & _ & Hcd).
      pose proof (P_mkdir _ _ _ _ _ Hm) as Pm.
      rewrite Hcd in H. destruct (fatal merr).
      * injection H as _ <- <-. eapply P_app; eauto.
      * destruct (for_each children _ fs2) as [[[u fs3] rest]|] eqn:Hf;
          [|discriminate].
        injection H as _ <- <-.
        change (EvMkdir (path_Join [Target t; subpath]) (DirMode t) :: rest)
          with ([EvMkdir (path_Join [Target t; subpath]) (DirMode t)]
                ++ rest)%list.
        eapply P_app; [exact Pl|]. eapply P_app; [exact Pm|].
        eapply for_each_inv; [|exact Hf].
        intros child fs4 u4 fs5 tr5. unfold copy_child.
        destruct (IsDir child); unfold bind, ret.
        -- destruct (copyDir fuel t _ fs4) as [[[r6 fs6] tr6]|] eqn:Hc;
             [|discriminate].
           intros H6. injection H6 as _ <- <-. rewrite app_nil_r. eauto.
        -- destruct (CopyFile t _ child fs4) as [[[r6 fs6] tr6]|] eqn:Hc;
             [|discriminate].
           intros H6. injection H6 as _ <- <-. rewrite app_nil_r. eauto.
Qed.

End WalkInvariant.

Section WalkMore.
Variable Data : Type.
Implicit Types (t : Translator Data).

Lemma CopyFile_keeps t subpath fi fs res fs' tr :
  copy_keeps_dirs (CopyFunc t) ->
  CopyFile t subpath fi fs = Some (res, fs', tr) -> keeps_dirs fs fs'.
Proof.
  intros Hcf H. unfold CopyFile in H. destruct (negb (ExcludeFile t fi)).
  - eapply Hcf; eauto.
  - injection H as _ <- _. apply keeps_dirs_refl.
Qed.

Lemma GetChildren_unchanged path fs r fs1 tr :
  GetChildren path fs = Some (r, fs1, tr) -> fs1 = fs /\ listing_trace path tr.
Proof.
  intros H.
  destruct (GetChildren_spec path fs) as (children & err & tr' & H' & Hl).
  rewrite H in H'. injection H' as _ -> ->. auto.
Qed.

Lemma walk_keeps_dirs_gen fatal copyDir t :
  CopyDir_steps (Data:=Data) fatal copyDir ->
  (forall t' subpath fs, copyDir O t' subpath fs = None) ->
  copy_keeps_dirs (CopyFunc t) ->
  forall fuel subpath fs res fs' tr,
    copyDir fuel t subpath fs = Some (res, fs', tr) -> keeps_dirs fs fs'.
Proof.
  intros Hsteps Hzero Hcf.
  apply (CopyDir_run_inv Data fatal copyDir Hsteps Hzero t
           (fun fs fs' _ => keeps_dirs fs fs')).
  - apply keeps_dirs_refl.
  - intros. eapply keeps_dirs_trans; eauto.
  - intros subpath fs r fs1 tr H.
    apply GetChildren_unchanged in H as [-> _]. apply keeps_dirs_refl.
  - intros. eapply os_Mkdir_keeps; eauto.
  - intros. eapply CopyFile_keeps; eauto.
Qed.

Lemma is_dir_keeps name fs fs' :
  keeps_dirs fs fs' -> is_dir name fs = true -> is_dir name fs' = true.
Proof.
  unfold is_dir. intros Hk H.
  destruct (resolve name fs) as [e|p] eqn:Hr; [discriminate|].
  rewrite (resolve_keeps _ _ _ _ Hk Hr).
  destruct (lookup p fs) as [[m d|m es]|] eqn:Hl; try discriminate.
  destruct (Hk _ _ _ Hl) as [es' ->]. reflexivity.
Qed.

Lemma os_Mkdir_EEXIST name perm fs op path fs2 tr :
  os_Mkdir name perm fs = Some (Some (PathError op path EEXIST), fs2, tr) ->
  exists_at name fs = true.
Proof.
  unfold os_Mkdir, exists_at. intros H.
  destruct (resolve name fs) as [e0|p] eqn:Hr.
  - unfold resolve in Hr.
    destruct (String.eqb name ""); [inversion Hr; subst; discriminate|].
    exfalso. revert Hr. generalize (@nil string) as cur.
    induction (split_slash name) as [|c cs IH]; intros cur Hw;
      simpl in Hw; [discriminate|].
    destruct (lookup cur fs) as [[m d|m es]|];
      try (inversion Hw; subst; discriminate).
    destruct (searchable m); [|inversion Hw; subst; discriminate].
    destruct (String.eqb c "" || String.eqb c "."); [eauto|].
    destruct (String.eqb c ".."); eauto.
  - destruct (lookup p fs); [reflexivity|].
    destruct (lookup (removelast p) fs) as [[m d|m es]|];
      try (inversion H; fail).
    destruct (writable m); inversion H.
Qed.

(** A call of [CopyDir] that returns [nil] leaves its target directory
    in place. *)
Lemma target_stays_gen fatal copyDir t :
  CopyDir_steps (Data:=Data) fatal copyDir ->
  (forall t' subpath fs, copyDir O t' subpath fs = None) ->
  (forall merr, fatal merr = false -> merr = None \/ os_IsExist merr = true) ->
  copy_keeps_dirs (CopyFunc t) ->
  forall fuel subpath fs fs' tr,
    copyDir fuel t subpath fs = Some (None, fs', tr) ->
    exists_at (path_Join [Target t; subpath]) fs = false \/
    is_dir (path_Join [Target t; subpath]) fs = true ->
    is_dir (path_Join [Target t; subpath]) fs' = true.
Proof.
  intros Hsteps Hzero Htol Hcf fuel subpath fs fs' tr Hrun Hpre.
  destruct fuel as [|fuel]; [rewrite Hzero in Hrun; discriminate|].
  destruct (Hsteps fuel t subpath fs)
    as (children & lerr & ltr & Hg & _ & Hrest).
  destruct lerr as [e|]; [rewrite Hrest in Hrun; discriminate|].
  destruct Hrest as (merr & fs2 & Hm & Heff & Hcd).
  rewrite Hcd in Hrun.
  destruct (fatal merr) eqn:Hf.
  - injection Hrun as -> <- _. exact Heff.
  - assert (Hd2 : is_dir (path_Join [Target t; subpath]) fs2 = true).
    { destruct (Htol _ Hf) as [-> | Hex]; [exact Heff|].
      destruct merr as [[op path [] | msg]|]; try discriminate.
      subst fs2. apply os_Mkdir_EEXIST in Hm.
      destruct Hpre as [Hno|Hd]; [congruence|exact Hd]. }
    destruct (for_each children _ fs2) as [[[u fs3] rest]|] eqn:Hloop;
      [|discriminate].
    injection Hrun as <- _.
    eapply is_dir_keeps; [|exact Hd2].
    eapply (for_each_inv (fun a b _ => keeps_dirs a b));
      [intros; apply keeps_dirs_refl
      |intros; eapply keeps_dirs_trans; eauto
      | |exact Hloop].
    intros child fs4 u4 fs5 tr5. unfold copy_child.
    destruct (IsDir child); unfold bind, ret.
    + destruct (copyDir fuel t _ fs4) as [[[r6 fs6] tr6]|] eqn:Hc;
        [|discriminate].
      intros H6. injection H6 as _ <- _.
      eapply walk_keeps_dirs_gen; eauto.
    + destruct (CopyFile t _ child fs4) as [[[r6 fs6] tr6]|] eqn:Hc;
        [|discriminate].
      intros H6. injection H6 as _ <- _.
      eapply CopyFile_keeps; eauto.
Qed.

End WalkMore.

Lemma ColdCopy_keeps_dirs (Data : Type) :
  copy_keeps_dirs (@ColdCopy Data).
Proof.
  intros source target fi data fs res fs' tr H.
  now apply ColdCopy_changes_target_only in H.
Qed.

Lemma TemplateCopy_keeps_dirs (Data Template : Type)
    (parse : string -> list byte -> result Template)
    (render : Template -> option Data -> list byte * option error) :
  copy_keeps_dirs (RevB.TemplateCopy parse render).
Proof.
  intros source target fi data fs res fs' tr H.
  now apply TemplateCopy_changes_target_only in H.
Qed.

Lemma fatal_A_tolerates merr :
  fatal_A merr = false -> merr = None \/ os_IsExist merr = true.
Proof. destruct merr; [discriminate|auto]. Qed.

Lemma fatal_B_tolerates merr :
  fatal_B merr = false -> merr = None \/ os_IsExist merr = true.
Proof.
  unfold fatal_B. destruct merr as [e|]; [|auto].
  rewrite andb_true_l. intros H. right. now apply negb_false_iff in H.
Qed.

(** X15. A walk never removes a directory and never changes the
    permission bits of one, as long as the copy function does not: what
    was a directory before the walk is a directory with the same bits
    after it, in both revisions.  [ColdCopy] and [TemplateCopy] are
    such copy functions. *)
Theorem walk_keeps_directories (Data : Type) (t : Translator Data)
    (fuel : nat) (subpath : string) (fs : node)
    (res : option error) (fs' : node) (tr : list Event) :
  (copy_keeps_dirs (@ColdCopy Data) /\
   forall (Template : Type) parse render,
     copy_keeps_dirs (@RevB.TemplateCopy Data Template parse render)) /\
  (copy_keeps_dirs (CopyFunc t) ->
   RevA.CopyDir fuel t subpath fs = Some (res, fs', tr) \/
   RevB.CopyDir fuel t subpath fs = Some (res, fs', tr) ->
   keeps_dirs fs fs').
Proof.
  split; [split|].
  - apply ColdCopy_keeps_dirs.
  - intros. apply TemplateCopy_keeps_dirs.
  - intros Hcf [H|H].
    + eapply (walk_keeps_dirs_gen Data fatal_A); eauto using A_CopyDir_steps.
    + eapply (walk_keeps_dirs_gen Data fatal_B); eauto using B_CopyDir_steps.
Qed.

Lemma walk_keeps_directories_witness :
  exists res fs' tr,
    RevB.Translate 1 Demo.t_tmpl Demo.fs_tmpl = Some (res, fs', tr) /\
    keeps_dirs Demo.fs_tmpl fs'.
Proof.
  destruct (RevB.Translate 1 Demo.t_tmpl Demo.fs_tmpl)
    as [[[res fs'] tr]|] eqn:Hrun; [|vm_compute in Hrun; discriminate].
  exists res, fs', tr. split; [reflexivity|].
  destruct (walk_keeps_directories (list byte) Demo.t_tmpl 1 ""
              Demo.fs_tmpl res fs' tr) as [[_ Htc] Hwalk].
  apply Hwalk; [apply Htc|right; exact Hrun].
Defined.

(** X16. A call of [CopyDir] that returns [nil] leaves its target
    directory in place: when nothing, or a directory, was under the
    name of the target before the call, a directory is under that name
    after it, in both revisions and for every copy function that
    removes no directory. *)
Theorem CopyDir_nil_leaves_target_directory (Data : Type)
    (t : Translator Data) (fuel : nat) (subpath : string)
    (fs fs' : node) (tr : list Event) :
  let tgt := path_Join [Target t; subpath] in
  copy_keeps_dirs (CopyFunc t) ->
  RevA.CopyDir fuel t subpath fs = Some (None, fs', tr) \/
  RevB.CopyDir fuel t subpath fs = Some (None, fs', tr) ->
  exists_at tgt fs = false \/ is_dir tgt fs = true ->
  is_dir tgt fs' = true.
Proof.
  intros tgt Hcf [H|H] Hpre.
  - eapply (target_stays_gen Data fatal_A);
      eauto using A_CopyDir_steps, fatal_A_tolerates.
  - eapply (target_stays_gen Data fatal_B);
      eauto using B_CopyDir_steps, fatal_B_tolerates.
Qed.

Lemma CopyDir_nil_leaves_target_directory_witness :
  is_dir "out" Demo.fs_copied = true.
Proof.
  apply (CopyDir_nil_leaves_target_directory (list byte) Demo.t0 2 ""
           Demo.fs0 Demo.fs_copied Demo.walk_trace).
  - apply ColdCopy_keeps_dirs.
  - right. vm_compute. reflexivity.
  - left. reflexivity.
Defined.

Section WalkLeaves.
Variable Data : Type.
Implicit Types (t : Translator Data).

Lemma CopyDir_error_gen fatal copyDir :
  CopyDir_steps (Data:=Data) fatal copyDir ->
  (forall t subpath fs, copyDir O t subpath fs = None) ->
  forall fuel t subpath fs e fs' tr,
    copyDir fuel t subpath fs = Some (Some e, fs', tr) ->
    fs' = fs /\
    ((exists children,
        GetChildren (path_Join [Source t; subpath]) fs =
          Some ((children, Some e), fs, tr)) \/
     (exists children ltr,
        GetChildren (path_Join [Source t; subpath]) fs =
          Some ((children, None), fs, ltr) /\
        os_Mkdir (path_Join [Target t; subpath]) (DirMode t) fs =
          Some (Some e, fs,
                [EvMkdir (path_Join [Target t; subpath]) (DirMode t)]) /\
        tr = (ltr ++
              [EvMkdir (path_Join [Target t; subpath]) (DirMode t)])%list)).
Proof.
  intros Hsteps Hzero fuel t subpath fs e fs' tr Hrun.
  destruct fuel as [|fuel]; [rewrite Hzero in Hrun; discriminate|].
  destruct (Hsteps fuel t subpath fs)
    as (children & lerr & ltr & Hg & _ & Hrest).
  destruct lerr as [e0|].
  - rewrite Hrest in Hrun. injection Hrun as -> <- <-. eauto.
  - destruct Hrest as (merr & fs2 & Hm & Heff & Hcd).
    rewrite Hcd in Hrun. destruct (fatal merr).
    + injection Hrun as -> <- <-. subst fs2. eauto 10.
    + destruct (for_each children _ fs2) as [[[u fs3] rest]|];
        discriminate.
Qed.

Lemma copy_child_excluded f t (cd1 cd2 : string -> M (option error))
    subpath child fs :
  (forall fi, ExcludeFile t fi = true) ->
  (forall s fs1, cd1 s fs1 = cd2 s fs1) ->
  copy_child cd1 (with_CopyFunc f t) subpath child fs =
  copy_child cd2 t subpath child fs.
Proof.
  intros Hex H. unfold copy_child. destruct (IsDir child).
  - unfold bind. now rewrite H.
  - unfold CopyFile. simpl. now rewrite Hex.
Qed.

Lemma A_CopyDir_all_excluded f t fuel :
  (forall fi, ExcludeFile t fi = true) ->
  forall subpath fs,
    RevA.CopyDir fuel (with_CopyFunc f t) subpath fs =
    RevA.CopyDir fuel t subpath fs.
Proof.
  intros Hex. induction fuel as [|fuel IH]; intros subpath fs; [reflexivity|].
  simpl. apply bind_ext. intros [children err] fs1.
  destruct err; [reflexivity|].
  apply bind_ext. intros merr fs2. destruct merr; [reflexivity|].
  unfold bind.
  rewrite (for_each_ext children _
             (copy_child (RevA.CopyDir fuel t) t subpath)); [reflexivity|].
  intros child fs3. apply copy_child_excluded; [exact Hex|].
  intros s fs4. apply IH.
Qed.

Lemma B_CopyDir_all_excluded f t fuel :
  (forall fi, ExcludeFile t fi = true) ->
  forall subpath fs,
    RevB.CopyDir fuel (with_CopyFunc f t) subpath fs =
    RevB.CopyDir fuel t subpath fs.
Proof.
  intros Hex. induction fuel as [|fuel IH]; intros subpath fs; [reflexivity|].
  simpl. apply bind_ext. intros [children err] fs1.
  destruct err; [reflexivity|].
  apply bind_ext. intros merr fs2.
  destruct (_ && _); [reflexivity|].
  unfold bind.
  rewrite (for_each_ext children _
             (copy_child (RevB.CopyDir fuel t) t subpath)); [reflexivity|].
  intros child fs3. apply copy_child_excluded; [exact Hex|].
  intros s fs4. apply IH.
Qed.

Lemma for_each_returns {A} (xs : list A) (body : A -> M unit) :
  (forall x, In x xs -> forall fs, exists r, body x fs = Some r) ->
  forall fs, exists r, for_each xs body fs = Some r.
Proof.
  induction xs as [|x rest IH]; intros Hb fs; simpl; [unfold ret; eauto|].
  unfold bind.
  destruct (Hb x (or_introl eq_refl) fs) as [[[u fs1] tr1] ->].
  destruct (IH (fun y Hy => Hb y (or_intror Hy)) fs1) as [[[u2 fs2] tr2] ->].
  eauto.
Qed.

Lemma flat_returns_gen fatal copyDir t fuel subpath fs children ltr :
  CopyDir_steps (Data:=Data) fatal copyDir ->
  CopyFunc t = ColdCopy ->
  GetChildren (path_Join [Source t; subpath]) fs =
    Some ((children, None), fs, ltr) ->
  forallb (fun child => negb (IsDir child)) children = true ->
  exists res fs' tr, copyDir (S fuel) t subpath fs = Some (res, fs', tr).
Proof.
  intros Hsteps Hcf Hg Hflat.
  destruct (Hsteps fuel t subpath fs)
    as (children' & lerr & ltr' & Hg' & _ & Hrest).
  rewrite Hg in Hg'. injection Hg' as <- <- <-.
  destruct Hrest as (merr & fs2 & _ & _ & ->).
  destruct (fatal merr); [eauto|].
  destruct (for_each_returns children
              (copy_child (copyDir fuel t) t subpath)) with (fs := fs2)
    as [[[u fs3] rest] ->]; [|eauto].
  intros child Hin fs4. rewrite forallb_forall in Hflat.
  specialize (Hflat child Hin). unfold copy_child.
  destruct (IsDir child); [discriminate|].
  unfold bind, CopyFile. destruct (negb (ExcludeFile t child)).
  - rewrite Hcf.
    destruct (ColdCopy_returns Data (path_Join [Source t; path_Join [subpath; Name child]])
                (path_Join [Target t; path_Join [subpath; Name child]])
                (Some child) (CopyData t) fs4) as [[[r5 fs5] tr5] ->].
    unfold ret. eauto.
  - unfold ret. eauto.
Qed.

End WalkLeaves.

(** X10. When [CopyDir] returns an error, it has changed nothing and
    processed no child: the error is the one of listing its own
    directory, or the one of [os.Mkdir] on its own target after a
    listing that succeeded.  This holds of both revisions. *)
Theorem CopyDir_error_means_untouched (Data : Type) (t : Translator Data)
    (fuel : nat) (subpath : string) (fs : node)
    (e : error) (fs' : node) (tr : list Event) :
  RevA.CopyDir fuel t subpath fs = Some (Some e, fs', tr) \/
  RevB.CopyDir fuel t subpath fs = Some (Some e, fs', tr) ->
  let src := path_Join [Source t; subpath] in
  let tgt := path_Join [Target t; subpath] in
  fs' = fs /\
  ((exists children,
      GetChildren src fs = Some ((children, Some e), fs, tr)) \/
   (exists children ltr,
      GetChildren src fs = Some ((children, None), fs, ltr) /\
      os_Mkdir tgt (DirMode t) fs =
        Some (Some e, fs, [EvMkdir tgt (DirMode t)]) /\
      tr = (ltr ++ [EvMkdir tgt (DirMode t)])%list)).
Proof.
  intros [H|H] src tgt.
  - eapply (CopyDir_error_gen Data fatal_A); eauto using A_CopyDir_steps.
  - eapply (CopyDir_error_gen Data fatal_B); eauto using B_CopyDir_steps.
Qed.

Lemma CopyDir_error_means_untouched_witness :
  exists e tr,
    RevB.CopyDir 2 (New (Data:=list byte) "src/none" "out") ""
      Demo.fs_out = Some (Some e, Demo.fs_out, tr) /\
    GetChildren "src/none" Demo.fs_out = Some (([], Some e), Demo.fs_out, tr).
Proof.
  destruct (RevB.CopyDir 2 (New (Data:=list byte) "src/none" "out") ""
              Demo.fs_out) as [[[res fs'] tr]|] eqn:Hrun;
    [|vm_compute in Hrun; discriminate].
  assert (Hres : exists e, res = Some e).
  { pose proof Hrun as H. vm_compute in H. injection H as <- _ _. eauto. }
  destruct Hres as [e ->].
  destruct (CopyDir_error_means_untouched _ _ _ _ _ _ _ _ (or_intror Hrun))
    as [-> [[children Hg]|(children & ltr & Hg & _)]].
  - exists e, tr. split; [reflexivity|].
    pose proof Hg as Hg'. vm_compute in Hg'.
    injection Hg' as <- _. exact Hg.
  - exfalso. vm_compute in Hg. discriminate.
Defined.

(** X11. [CopyDir] never reads the field [ExcludeDir]: a translator
    with another predicate in that field runs in exactly the same way,
    in both revisions. *)
Theorem CopyDir_never_reads_ExcludeDir (Data : Type)
    (f : FileInfo -> bool) (t : Translator Data)
    (fuel : nat) (subpath : string) (fs : node) :
  RevA.CopyDir fuel (with_ExcludeDir f t) subpath fs =
    RevA.CopyDir fuel t subpath fs /\
  RevB.CopyDir fuel (with_ExcludeDir f t) subpath fs =
    RevB.CopyDir fuel t subpath fs.
Proof.
  split;
    [apply A_CopyDir_ignores_ExcludeDir|apply B_CopyDir_ignores_ExcludeDir].
Qed.

(** X12. When [ExcludeFile] holds of every file, a walk never calls
    the copy function: with any other copy function in its place the
    walk runs in exactly the same way, in both revisions. *)
Theorem CopyDir_all_files_excluded (Data : Type)
    (f : CopyFuncT Data) (t : Translator Data)
    (fuel : nat) (subpath : string) (fs : node) :
  (forall fi, ExcludeFile t fi = true) ->
  RevA.CopyDir fuel (with_CopyFunc f t) subpath fs =
    RevA.CopyDir fuel t subpath fs /\
  RevB.CopyDir fuel (with_CopyFunc f t) subpath fs =
    RevB.CopyDir fuel t subpath fs.
Proof.
  intros Hex. split;
    [now apply A_CopyDir_all_excluded|now apply B_CopyDir_all_excluded].
Qed.

Lemma CopyDir_all_files_excluded_witness :
  RevB.CopyDir 2
    (with_CopyFunc Demo.failing_copy
       (with_ExcludeFile (fun _ => true) Demo.t0)) "" Demo.fs0 =
  RevB.CopyDir 2 (with_ExcludeFile (fun _ => true) Demo.t0) "" Demo.fs0.
Proof.
  apply (CopyDir_all_files_excluded (list byte) Demo.failing_copy
           (with_ExcludeFile (fun _ => true) Demo.t0) 2 "" Demo.fs0).
  intros fi. reflexivity.
Defined.

(** X13. A target directory that is already there: when the listing
    succeeds and something exists under the name of the target,
    [CopyDir] of revision B goes on with the children and returns what
    the loop gives, never the "already exists" error, while [CopyDir] of
    revision A returns that error and leaves the file system as it
    is. *)
Theorem CopyDir_on_existing_target (Data : Type) (t : Translator Data)
    (fuel : nat) (subpath : string) (fs : node)
    (children : list FileInfo) (ltr : list Event) :
  let src := path_Join [Source t; subpath] in
  let tgt := path_Join [Target t; subpath] in
  GetChildren src fs = Some ((children, None), fs, ltr) ->
  exists_at tgt fs = true ->
  RevB.CopyDir (S fuel) t subpath fs =
    match for_each children
            (copy_child (RevB.CopyDir fuel t) t subpath) fs with
    | None => None
    | Some (_, fs', rest) =>
        Some (None, fs', (ltr ++ EvMkdir tgt (DirMode t) :: rest)%list)
    end /\
  RevA.CopyDir (S fuel) t subpath fs =
    Some (Some (PathError "mkdir" tgt EEXIST), fs,
          (ltr ++ [EvMkdir tgt (DirMode t)])%list).
Proof.
  intros src tgt Hg Hex. split.
  - exact (B_CopyDir_existing_target _ _ _ _ _ _ _ Hg Hex).
  - exact (A_CopyDir_existing_target _ _ _ _ _ _ _ Hg Hex).
Qed.

Lemma CopyDir_on_existing_target_witness :
  RevB.CopyDir 2 Demo.t0 "" Demo.fs_copied =
    Some (None, Demo.fs_copied, Demo.walk_trace) /\
  RevA.CopyDir 2 Demo.t0 "" Demo.fs_copied =
    Some (Some (PathError "mkdir" "out" EEXIST), Demo.fs_copied,
          [EvOpen "src"; EvReaddir "src"; EvClose "src"; EvMkdir "out" 493]).
Proof.
  destruct (CopyDir_on_existing_target (list byte) Demo.t0 1 ""
              Demo.fs_copied [Demo.fi_a; Demo.fi_b; Demo.fi_d]
              [EvOpen "src"; EvReaddir "src"; EvClose "src"]
              eq_refl eq_refl) as [HB HA].
  split; [rewrite HB; vm_compute; reflexivity|exact HA].
Defined.

(** X14. On a directory without subdirectories [CopyDir] returns, and
    it does so without calling itself: when the listing succeeds and no
    child is a directory, a recursion budget of one is enough, with
    [ColdCopy] as the copy function, in both revisions. *)
Theorem CopyDir_flat_returns (Data : Type) (t : Translator Data)
    (subpath : string) (fs : node)
    (children : list FileInfo) (ltr : list Event) :
  CopyFunc t = ColdCopy ->
  GetChildren (path_Join [Source t; subpath]) fs =
    Some ((children, None), fs, ltr) ->
  forallb (fun child => negb (IsDir child)) children = true ->
  (exists res fs' tr, RevA.CopyDir 1 t subpath fs = Some (res, fs', tr)) /\
  (exists res fs' tr, RevB.CopyDir 1 t subpath fs = Some (res, fs', tr)).
Proof.
  intros Hcf Hg Hflat. split.
  - eapply (flat_returns_gen Data fatal_A); eauto using A_CopyDir_steps.
  - eapply (flat_returns_gen Data fatal_B); eauto using B_CopyDir_steps.
Qed.

Lemma CopyDir_flat_returns_witness :
  exists res fs' tr,
    RevB.CopyDir 1 Demo.t0 "d" Demo.fs_out = Some (res, fs', tr).
Proof.
  exact (proj2 (CopyDir_flat_returns (list byte) Demo.t0 "d" Demo.fs_out
                  [stat "f" (Reg 420 (Demo.bytes "F"))]
                  [EvOpen "src/d"; EvReaddir "src/d"; EvClose "src/d"]
                  eq_refl eq_refl eq_refl)).
Defined.

(* ================================================================== *)
(** * The order of the steps of CopyDir *)
(* ================================================================== *)






(* ================================================================== *)
(** * What the copy functions change *)
(* ================================================================== *)

(** A node that is neither where [put] puts a regular file nor above
    that place is not touched, as long as [put] does not replace a
    directory. *)
Lemma lookup_put_other m bytes p :
  forall q n,
    is_prefix q p = false ->
    (forall m' es', lookup p n <> Some (Dir m' es')) ->
    lookup q (put p (Reg m bytes) n) = lookup q n.
Proof.
  induction p as [|c p' IH]; intros q n Hpre Hnd.
  - destruct q as [|c' q']; [discriminate|].
    simpl in Hnd. destruct n as [m0 d0|m0 es0]; [reflexivity|].
    exfalso. eapply Hnd; reflexivity.
  - destruct q as [|c' q']; [discriminate|].
    destruct n as [m0 d0|m0 es0]; [reflexivity|].
    simpl in Hpre, Hnd |- *.
    destruct (assoc c es0) as [n'|] eqn:Hc.
    + simpl. destruct (String.eqb_spec c' c) as [->|Hcc].
      * rewrite assoc_upsert_same, Hc. apply IH; [exact Hpre|exact Hnd].
      * rewrite assoc_upsert_other by congruence. reflexivity.
    + destruct p' as [|c2 p'']; [|reflexivity].
      simpl. destruct (String.eqb_spec c' c) as [->|Hcc].
      * rewrite assoc_upsert_same, Hc.
        destruct q' as [|c3 q'']; [discriminate|reflexivity].
      * rewrite assoc_upsert_other by congruence. reflexivity.
Qed.

Lemma only_file_changed_put pt m bytes fs :
  (forall m' es', lookup pt fs <> Some (Dir m' es')) ->
  match lookup pt fs with
  | Some (Reg m0 _) => m = m0
  | _ => m = apply_umask 438
  end ->
  only_file_changed pt fs (put pt (Reg m bytes) fs).
Proof.
  intros Hnd Hm. split; [exact Hnd|]. split; [eauto|].
  intros q Hq. now apply lookup_put_other.
Qed.

(** The permission bits of the file [os.Create] leaves: those of the
    file that was there, or 0644. *)
Lemma os_Create_ok_mode name fs out fs1 tr :
  os_Create name fs = Some (Ok out, fs1, tr) ->
  exists m,
    fs1 = put (f_loc out) (Reg m []) fs /\
    match lookup (f_loc out) fs with
    | Some (Reg m0 _) => m = m0
    | _ => m = apply_umask 438
    end.
Proof.
  unfold os_Create. intros H.
  destruct (resolve name fs) as [e0|p] eqn:Hr; [now inversion H|].
  destruct (lookup p fs) as [[m d|m es]|] eqn:Hl; [|now inversion H|].
  - destruct (readable m && writable m); inversion H; subst; simpl.
    exists m. rewrite Hl. auto.
  - destruct (lookup (removelast p) fs) as [[m d|m es]|] eqn:Hp;
      try now inversion H.
    destruct (writable m); inversion H; subst; simpl.
    eexists. rewrite Hl. auto.
Qed.

Lemma ColdCopy_effect (Data : Type) source target fi (data : option Data)
    fs res fs' tr :
  ColdCopy source target fi data fs = Some (res, fs', tr) ->
  fs' = fs \/
  exists pt, resolve target fs = inr pt /\ only_file_changed pt fs fs'.
Proof.
  intros H.
  destruct (ColdCopy_inv _ _ _ _ _ _ _ _ _ H)
    as [(e & _ & _ & -> & _)
       |[(in_ & e & _ & _ & _ & -> & _)
        |(in_ & out & fs1 & n & ctr & Ho & Hc & Hio & _)]]; auto.
  right. exists (f_loc out).
  pose proof (os_Create_ok _ _ _ _ _ Hc) as (_ & _ & Hrt & Hnd & m0 & _ & Hl).
  destruct (os_Create_ok_mode _ _ _ _ _ Hc) as (m & Hfs1 & Hm).
  split; [exact Hrt|].
  destruct res as [e|].
  - apply io_Copy_fail in Hio as ->. subst fs1.
    now apply only_file_changed_put.
  - apply io_Copy_ok in Hio as (ms & bytes & md & old & _ & Hd & -> & _).
    subst fs1. rewrite put_put.
    apply lookup_put_inj in Hl. apply lookup_put_inj in Hd.
    injection Hd as <- _. now apply only_file_changed_put.
Qed.

(** X3. Whatever [ColdCopy] returns, it changes nothing but the
    target.  Either the file system is exactly as before, or it differs
    in the regular file under the target's name only: that file has the
    permission bits of the file that was there (0644 when it is new),
    and every node that is neither the target nor a directory above it
    is as it was, with its kind, its permission bits and its contents.
    The directories stay directories with their permission bits. *)
Theorem ColdCopy_frame (Data : Type) (source target : string)
    (fi : option FileInfo) (data : option Data)
    (fs : node) (res : option error) (fs' : node) (tr : list Event) :
  ColdCopy source target fi data fs = Some (res, fs', tr) ->
  keeps_dirs fs fs' /\
  (fs' = fs \/
   exists pt, resolve target fs = inr pt /\ only_file_changed pt fs fs').
Proof.
  intros H. split.
  - now apply ColdCopy_changes_target_only in H.
  - eapply ColdCopy_effect; eauto.
Qed.

Lemma ColdCopy_frame_witness :
  exists res fs' tr,
    ColdCopy (Data:=list byte) "src/b.txt" "out/b.txt" None None
      Demo.fs_copied = Some (res, fs', tr) /\
    lookup ["src"; "a.txt"] fs' = Some (Reg 0 (Demo.bytes "A")) /\
    lookup ["src"; "b.txt"] fs' = Some (Reg 420 (Demo.bytes "B")) /\
    lookup ["out"; "d"] fs' = lookup ["out"; "d"] Demo.fs_copied.
Proof.
  destruct (ColdCopy (Data:=list byte) "src/b.txt" "out/b.txt" None None
              Demo.fs_copied) as [[[res fs'] tr]|] eqn:Hrun;
    [|vm_compute in Hrun; discriminate].
  exists res, fs', tr. split; [reflexivity|].
  destruct (ColdCopy_frame _ _ _ _ _ _ _ _ _ Hrun)
    as [_ [-> | (pt & Hr & _ & _ & Hsame)]].
  - repeat split; reflexivity.
  - vm_compute in Hr. injection Hr as <-.
    repeat split; rewrite Hsame; reflexivity.
Defined.

Lemma TemplateCopy_effect (Data Template : Type)
    (parse : string -> list byte -> result Template)
    (render : Template -> option Data -> list byte * option error)
    source target fi data fs res fs' tr :
  RevB.TemplateCopy parse render source target fi data fs =
    Some (res, fs', tr) ->
  let written :=
    if strings_HasSuffix source ".tmpl"
    then strings_TrimSuffix target ".tmpl" else target in
  fs' = fs \/
  exists pt, resolve written fs = inr pt /\ only_file_changed pt fs fs'.
Proof.
  intros H written. subst written.
  destruct (strings_HasSuffix source ".tmpl") eqn:Hsuf.
  - destruct (TemplateCopy_inv _ _ parse render _ _ _ _ _ _ _ _ Hsuf H)
      as [(e & _ & _ & -> & _)
         |(out & fs1 & ptr & Hc &
           [(e & _ & _ & -> & _)|(tmpl & m & _ & Hl & _ & -> & _)])];
      auto; right; exists (f_loc out);
      pose proof (os_Create_ok _ _ _ _ _ Hc)
        as (_ & _ & Hrt & Hnd & m0 & _ & Hl0);
      destruct (os_Create_ok_mode _ _ _ _ _ Hc) as (m1 & Hfs1 & Hm);
      (split; [exact Hrt|]); subst fs1.
    + now apply only_file_changed_put.
    + rewrite put_put. apply lookup_put_inj in Hl. injection Hl as <-.
      now apply only_file_changed_put.
  - rewrite TemplateCopy_plain in H by exact Hsuf.
    eapply ColdCopy_effect; eauto.
Qed.

(** X7. Whatever [TemplateCopy] returns, it changes nothing but the
    file it writes, which is the target without [.tmpl] for a template
    and the target itself otherwise.  Either the file system is exactly
    as before, or it differs in the regular file under that name only:
    the file has the permission bits of the file that was there (0644
    when it is new), and every node that is neither that file nor a
    directory above it is as it was, with its kind, its permission bits
    and its contents.  The directories stay directories with their
    permission bits.  This holds for every template engine. *)
Theorem TemplateCopy_frame (Data Template : Type)
    (parse : string -> list byte -> result Template)
    (render : Template -> option Data -> list byte * option error)
    (source target : string) (fi : option FileInfo) (data : option Data)
    (fs : node) (res : option error) (fs' : node) (tr : list Event) :
  RevB.TemplateCopy parse render source target fi data fs =
    Some (res, fs', tr) ->
  let written :=
    if strings_HasSuffix source ".tmpl"
    then strings_TrimSuffix target ".tmpl" else target in
  keeps_dirs fs fs' /\
  (fs' = fs \/
   exists pt, resolve written fs = inr pt /\ only_file_changed pt fs fs').
Proof.
  intros H written. split.
  - now apply TemplateCopy_changes_target_only in H.
  - eapply TemplateCopy_effect; eauto.
Qed.

Lemma TemplateCopy_frame_witness :
  exists res fs' tr,
    RevB.TemplateCopy Demo.toy_Parse Demo.toy_Render
      "src/page.html.tmpl" "out/page.html.tmpl" None
      (Some (Demo.bytes "world")) Demo.fs_tmpl = Some (res, fs', tr) /\
    lookup ["src"; "page.html.tmpl"] fs' =
      Some (Reg 420 (Demo.bytes "Hello, ")) /\
    lookup ["out"; "bad.html"] fs' = Some (Reg 420 (Demo.bytes "old")) /\
    lookup ["out"; "page.html.tmpl"] fs' = None.
Proof.
  destruct (RevB.TemplateCopy Demo.toy_Parse Demo.toy_Render
              "src/page.html.tmpl" "out/page.html.tmpl" None
              (Some (Demo.bytes "world")) Demo.fs_tmpl)
    as [[[res fs'] tr]|] eqn:Hrun; [|vm_compute in Hrun; discriminate].
  exists res, fs', tr. split; [reflexivity|].
  destruct (TemplateCopy_frame _ _ _ _ _ _ _ _ _ _ _ _ Hrun)
    as [_ [-> | (pt & Hr & _ & _ & Hsame)]].
  - repeat split; reflexivity.
  - vm_compute in Hr. injection Hr as <-.
    repeat split; rewrite Hsame; reflexivity.
Defined.

(* ================================================================== *)
(** * The walk stays under its two roots *)
(* ================================================================== *)

Lemma split_slash_cons s : exists h t, split_slash s = h :: t.
Proof.
  induction s as [|c s IH]; simpl; [eauto|].
  destruct (Ascii.eqb c "/"); [eauto|].
  destruct IH as (h & t & ->). eauto.
Qed.

Lemma split_slash_app a b :
  split_slash (a ++ String "/" b) = (split_slash a ++ split_slash b)%list.
Proof.
  induction a as [|c a IH]; simpl; [reflexivity|].
  destruct (Ascii.eqb c "/"); [now rewrite IH|].
  rewrite IH. destruct (split_slash_cons a) as (h & t & ->). reflexivity.
Qed.

Lemma split_slash_no_slash s :
  Forall (fun c => has_slash c = false) (split_slash s).
Proof.
  induction s as [|c s IH]; simpl; [repeat constructor|].
  destruct (Ascii.eqb c "/") eqn:Hc; [constructor; auto|].
  destruct (split_slash s) as [|h t]; [repeat constructor; simpl; now rewrite Hc|].
  inversion IH; subst. constructor; [simpl; now rewrite Hc|assumption].
Qed.

Lemma split_slash_plain c : has_slash c = false -> split_slash c = [c].
Proof.
  induction c as [|a c IH]; simpl; [reflexivity|].
  destruct (Ascii.eqb a "/"); [discriminate|]. simpl. intros H.
  now rewrite (IH H).
Qed.

Lemma split_join cs :
  cs <> [] -> Forall (fun c => has_slash c = false) cs ->
  split_slash (join_slash cs) = cs.
Proof.
  induction cs as [|c rest IH]; intros Hne Hall; [contradiction|].
  inversion Hall as [|? ? Hc Hrest]; subst.
  destruct rest as [|c2 rest'].
  - simpl. now apply split_slash_plain.
  - change (join_slash (c :: c2 :: rest'))
      with (c ++ String "/" (join_slash (c2 :: rest'))).
    rewrite split_slash_app, (split_slash_plain _ Hc), IH; auto. discriminate.
Qed.

Lemma prefix_slash p : prefix "/" p = rooted p.
Proof.
  destruct p as [|c p]; [reflexivity|].
  change (prefix "/" (String c p))
    with (match ascii_dec "/" c with
          | left _ => prefix "" p
          | right _ => false
          end).
  unfold rooted. destruct (ascii_dec "/" c) as [<-|Hne].
  - destruct p; reflexivity.
  - symmetry. apply Ascii.eqb_neq. congruence.
Qed.

Lemma fold_clean r cs :
  forallb (fun c => negb (String.eqb c "..")) cs = true ->
  forall acc,
    fold_left (clean_step r) cs acc = (rev (filter kept cs) ++ acc)%list.
Proof.
  induction cs as [|c cs IH]; intros H acc; simpl in *; [reflexivity|].
  apply andb_prop in H as [Hc Hcs]. rewrite (IH Hcs).
  unfold clean_step, kept.
  destruct (String.eqb c "" || String.eqb c "."); simpl; [reflexivity|].
  apply negb_true_iff in Hc. rewrite Hc.
  now rewrite <- app_assoc.
Qed.

Lemma comps_good p : no_dotdot p = true -> good (comps p).
Proof.
  unfold no_dotdot, comps, good. intros H.
  pose proof (split_slash_no_slash p) as Hs.
  rewrite forallb_forall in H. rewrite Forall_forall in Hs |- *.
  intros c Hc. apply filter_In in Hc as [Hin Hk].
  repeat split; auto. apply negb_true_iff. auto.
Qed.

Lemma good_no_slash cs : good cs -> Forall (fun c => has_slash c = false) cs.
Proof. apply Forall_impl. tauto. Qed.

Lemma filter_kept_good cs : good cs -> filter kept cs = cs.
Proof.
  induction 1 as [|c cs (Hk & _) _ IH]; simpl; [reflexivity|].
  now rewrite Hk, IH.
Qed.

Lemma comps_join cs : good cs -> comps (join_slash cs) = cs.
Proof.
  intros Hg. unfold comps. destruct cs as [|c rest]; [reflexivity|].
  rewrite split_join; [now apply filter_kept_good|discriminate|].
  now apply good_no_slash.
Qed.

Lemma no_dotdot_join cs : good cs -> no_dotdot (join_slash cs) = true.
Proof.
  intros Hg. unfold no_dotdot. destruct cs as [|c rest]; [reflexivity|].
  rewrite split_join; [|discriminate|now apply good_no_slash].
  apply forallb_forall. intros x Hx.
  unfold good in Hg. rewrite Forall_forall in Hg.
  destruct (Hg x Hx) as (_ & _ & ->). reflexivity.
Qed.

Lemma kept_first c : kept c = true -> has_slash c = false ->
  exists a c', c = String a c' /\ Ascii.eqb a "/" = false.
Proof.
  destruct c as [|a c']; [discriminate|]. simpl. intros _ H.
  apply orb_false_iff in H as [Ha _]. eauto.
Qed.

Lemma join_first c rest :
  kept c = true -> has_slash c = false ->
  rooted (join_slash (c :: rest)) = false /\
  String.eqb (join_slash (c :: rest)) "" = false.
Proof.
  intros Hk Hs. destruct (kept_first c Hk Hs) as (a & c' & -> & Ha).
  destruct rest; simpl; auto.
Qed.

Lemma path_Clean_plain p :
  p <> "" -> no_dotdot p = true ->
  path_Clean p =
    if rooted p then "/" ++ join_slash (comps p)
    else match comps p with
         | [] => "."
         | _ => join_slash (comps p)
         end.
Proof.
  intros Hne Hnd. unfold path_Clean.
  destruct (String.eqb_spec p ""); [contradiction|].
  rewrite prefix_slash, (fold_clean _ _ Hnd), app_nil_r, rev_involutive.
  fold (comps p). destruct (rooted p); [reflexivity|].
  pose proof (comps_good p Hnd) as Hg.
  destruct (comps p) as [|c rest]; [reflexivity|].
  inversion Hg as [|? ? (Hk & Hs & _) _]; subst.
  destruct (join_first c rest Hk Hs) as [_ ->]. reflexivity.
Qed.

Lemma path_Clean_comps p :
  p <> "" -> no_dotdot p = true ->
  comps (path_Clean p) = comps p /\
  rooted (path_Clean p) = rooted p /\
  no_dotdot (path_Clean p) = true /\
  path_Clean p <> "".
Proof.
  intros Hne Hnd. rewrite (path_Clean_plain p Hne Hnd).
  pose proof (comps_good p Hnd) as Hg.
  destruct (rooted p).
  - repeat split; try discriminate.
    + change (comps ("/" ++ join_slash (comps p)))
        with (filter kept ("" :: split_slash (join_slash (comps p)))).
      simpl. now apply comps_join.
    + change (no_dotdot ("/" ++ join_slash (comps p)))
        with (forallb (fun c => negb (String.eqb c ".."))
                ("" :: split_slash (join_slash (comps p)))).
      simpl. now apply no_dotdot_join.
  - destruct (comps p) as [|c rest] eqn:Hc.
    + repeat split; try reflexivity. discriminate.
    + inversion Hg as [|? ? (Hk & Hs & _) _]; subst.
      destruct (join_first c rest Hk Hs) as [Hr Hn].
      repeat split; auto.
      * now apply comps_join.
      * now apply no_dotdot_join.
      * apply String.eqb_neq. exact Hn.
Qed.

Lemma comps_app a b : comps (a ++ String "/" b) = (comps a ++ comps b)%list.
Proof. unfold comps. now rewrite split_slash_app, filter_app. Qed.

Lemma no_dotdot_app a b :
  no_dotdot (a ++ String "/" b) = no_dotdot a && no_dotdot b.
Proof. unfold no_dotdot. now rewrite split_slash_app, forallb_app. Qed.

Lemma rooted_app a b : a <> "" -> rooted (a ++ b) = rooted a.
Proof. destruct a; [contradiction|reflexivity]. Qed.

Lemma append_not_empty a b : (a ++ String "/" b) <> "".
Proof. destruct a; discriminate. Qed.

(** [path.Join] of two names without [..]. *)
Lemma path_Join_comps a b :
  a <> "" -> no_dotdot a = true -> no_dotdot b = true ->
  comps (path_Join [a; b]) = (comps a ++ comps b)%list /\
  rooted (path_Join [a; b]) = rooted a /\
  no_dotdot (path_Join [a; b]) = true /\
  path_Join [a; b] <> "".
Proof.
  intros Ha Hna Hnb.
  assert (Hj : path_Join [a; b] = path_Clean (a ++ String "/" b)).
  { unfold path_Join. cbn [drop_empty].
    destruct (String.eqb_spec a ""); [contradiction|reflexivity]. }
  rewrite Hj.
  destruct (path_Clean_comps (a ++ String "/" b)) as (H1 & H2 & H3 & H4).
  - apply append_not_empty.
  - now rewrite no_dotdot_app, Hna, Hnb.
  - rewrite H1, H2, comps_app, rooted_app by assumption. auto.
Qed.

Lemma is_prefix_app (q r : loc) : is_prefix q (q ++ r)%list = true.
Proof.
  induction q as [|c q IH]; [reflexivity|].
  simpl. now rewrite String.eqb_refl, IH.
Qed.

Lemma inside_join root s :
  root <> "" -> no_dotdot root = true -> no_dotdot s = true ->
  inside root (path_Join [root; s]) = true.
Proof.
  intros Hr Hnr Hns.
  destruct (path_Join_comps root s Hr Hnr Hns) as (H1 & H2 & H3 & _).
  unfold inside.
  rewrite H1, H2, H3, is_prefix_app, Bool.eqb_reflx. reflexivity.
Qed.

Lemma proper_comps c : proper c = true ->
  c <> "" /\ no_dotdot c = true /\ has_slash c = false.
Proof.
  unfold proper, kept. intros H.
  apply andb_prop in H as [H Hs]. apply andb_prop in H as [Hk Hd].
  apply negb_true_iff in Hs, Hk, Hd. apply orb_false_iff in Hk as [He _].
  split; [now apply String.eqb_neq|]. split; [|exact Hs].
  unfold no_dotdot. rewrite (split_slash_plain _ Hs). simpl. now rewrite Hd.
Qed.

(** The subpath of a child has no [..] either. *)
Lemma child_subpath sub name :
  no_dotdot sub = true -> proper name = true ->
  no_dotdot (path_Join [sub; name]) = true.
Proof.
  intros Hs Hp. destruct (proper_comps _ Hp) as (Hne & Hnd & _).
  destruct (String.eqb_spec sub "") as [->|Hsub].
  - assert (Hj : path_Join [""; name] = path_Clean name).
    { unfold path_Join. cbn [drop_empty]. rewrite String.eqb_refl.
      destruct (String.eqb_spec name ""); [contradiction|reflexivity]. }
    rewrite Hj. now apply path_Clean_comps.
  - now apply path_Join_comps.
Qed.

Lemma assoc_In k es n :
  assoc k es = Some n -> exists k', In (k', n) es.
Proof.
  induction es as [|[k0 n0] rest IH]; simpl; [discriminate|].
  destruct (String.eqb k k0).
  - intros H. injection H as ->. eauto.
  - intros H. destruct (IH H) as [k' Hin]. eauto.
Qed.

Lemma lookup_proper p :
  forall n x, names_proper n = true -> lookup p n = Some x ->
  names_proper x = true.
Proof.
  induction p as [|c p IH]; intros n x Hn H; simpl in H.
  - congruence.
  - destruct n as [m d|m es]; [discriminate|].
    destruct (assoc c es) as [n'|] eqn:Hc; [|discriminate].
    destruct (assoc_In _ _ _ Hc) as [k' Hin].
    simpl in Hn. rewrite forallb_forall in Hn.
    specialize (Hn _ Hin). apply andb_prop in Hn as [_ Hn']. eauto.
Qed.

Lemma upsert_forallb (P : string * node -> bool) k v es :
  forallb P es = true -> P (k, v) = true ->
  forallb P (upsert k v es) = true.
Proof.
  intros Hes Hv. induction es as [|[k0 n0] rest IH]; simpl in *.
  - now rewrite Hv.
  - apply andb_prop in Hes as [H0 Hrest].
    destruct (String.eqb k k0); simpl.
    + now rewrite Hv, Hrest.
    + now rewrite H0, IH.
Qed.

Lemma put_proper new p :
  names_proper new = true ->
  Forall (fun c => proper c = true) p ->
  forall n, names_proper n = true -> names_proper (put p new n) = true.
Proof.
  intros Hnew. induction p as [|c p IH]; intros Hp n Hn; [exact Hnew|].
  inversion Hp as [|? ? Hc Hp']; subst.
  destruct n as [m d|m es]; [exact Hn|].
  simpl. destruct (assoc c es) as [n'|] eqn:Ha.
  - simpl. apply upsert_forallb; [exact Hn|]. simpl. rewrite Hc.
    apply IH; [exact Hp'|]. eapply (lookup_proper [c] (Dir m es)); eauto.
    simpl. now rewrite Ha.
  - destruct p as [|c2 p'']; [|exact Hn].
    simpl. apply upsert_forallb; [exact Hn|]. simpl. now rewrite Hc, Hnew.
Qed.

Lemma Forall_removelast {A} (P : A -> Prop) l :
  Forall P l -> Forall P (removelast l).
Proof.
  induction 1 as [|x l Hx Hl IH]; simpl; [constructor|].
  destruct l; [constructor|]. constructor; assumption.
Qed.

Lemma walk_proper fs cs :
  Forall (fun c => has_slash c = false) cs ->
  forall cur p,
    Forall (fun c => proper c = true) cur ->
    walk cs cur fs = inr p -> Forall (fun c => proper c = true) p.
Proof.
  induction 1 as [|c cs Hc Hcs IH]; intros cur p Hcur H; simpl in H.
  - congruence.
  - destruct (lookup cur fs) as [[m d|m es]|]; try discriminate.
    destruct (searchable m); [|discriminate].
    destruct (String.eqb c "" || String.eqb c ".") eqn:Hk; [eauto|].
    destruct (String.eqb c "..") eqn:Hd.
    + eapply IH; [|exact H]. now apply Forall_removelast.
    + eapply IH; [|exact H]. apply Forall_app. split; [exact Hcur|].
      constructor; [|constructor]. unfold proper, kept.
      now rewrite Hk, Hd, Hc.
Qed.

Lemma resolve_proper name fs p :
  resolve name fs = inr p -> Forall (fun c => proper c = true) p.
Proof.
  unfold resolve. destruct (String.eqb name ""); [discriminate|].
  apply walk_proper; [apply split_slash_no_slash|constructor].
Qed.

Lemma os_Mkdir_proper name perm fs merr fs2 tr :
  names_proper fs = true ->
  os_Mkdir name perm fs = Some (merr, fs2, tr) ->
  names_proper fs2 = true.
Proof.
  intros Hfs. unfold os_Mkdir.
  destruct (resolve name fs) as [e0|p] eqn:Hr;
    [intros H; inversion H; subst; exact Hfs|].
  destruct (lookup p fs); [intros H; inversion H; subst; exact Hfs|].
  destruct (lookup (removelast p) fs) as [[m d|m es]|];
    try (intros H; inversion H; subst; exact Hfs).
  destruct (writable m); intros H; inversion H; subst; [|exact Hfs].
  apply put_proper; [reflexivity|eapply resolve_proper; eauto|exact Hfs].
Qed.

Lemma ColdCopy_proper (Data : Type) source target fi (data : option Data)
    fs res fs' tr :
  names_proper fs = true ->
  ColdCopy source target fi data fs = Some (res, fs', tr) ->
  names_proper fs' = true.
Proof.
  intros Hfs H.
  destruct (ColdCopy_effect _ _ _ _ _ _ _ _ _ H)
    as [-> | (pt & Hr & _ & (m & bytes & -> & _) & _)]; [exact Hfs|].
  apply put_proper; [reflexivity|eapply resolve_proper; eauto|exact Hfs].
Qed.

Lemma GetChildren_names path fs children err fs1 tr :
  names_proper fs = true ->
  GetChildren path fs = Some ((children, err), fs1, tr) ->
  Forall (fun child => proper (Name child) = true) children.
Proof.
  intros Hfs. unfold GetChildren, bind.
  destruct (os_Open_total path fs) as [[f|e] Ho]; rewrite Ho.
  - unfold File_Readdir, File_Close, emit, ret.
    destruct (lookup (f_loc f) fs) as [[m d|m es]|] eqn:Hl;
      try (intros H; inversion H; constructor).
    pose proof (lookup_proper _ _ _ Hfs Hl) as Hd. simpl in Hd.
    destruct es as [|[k n] es]; [intros H; inversion H; constructor|].
    destruct (searchable m); intros H; inversion H; [|constructor].
    rewrite forallb_forall in Hd. apply Forall_forall.
    intros child Hin.
    change (In child (map (fun e => stat (fst e) (snd e)) ((k, n) :: es)))
      in Hin.
    apply in_map_iff in Hin as ([k' n'] & <- & Hin).
    specialize (Hd _ Hin). apply andb_prop in Hd as [Hp _].
    now rewrite Name_stat.
  - simpl. intros H. inversion H. constructor.
Qed.

Lemma for_each_confined {A} (E : Event -> Prop) (body : A -> M unit) xs :
  (forall x, In x xs -> forall fs u fs' tr,
     names_proper fs = true -> body x fs = Some (u, fs', tr) ->
     names_proper fs' = true /\ Forall E tr) ->
  forall fs u fs' tr,
    names_proper fs = true -> for_each xs body fs = Some (u, fs', tr) ->
    names_proper fs' = true /\ Forall E tr.
Proof.
  induction xs as [|x rest IH]; intros Hb fs u fs' tr Hfs H; simpl in H.
  - injection H as _ <- <-. auto.
  - unfold bind in H.
    destruct (body x fs) as [[[u1 fs1] tr1]|] eqn:Hx; [|discriminate].
    destruct (for_each rest body fs1) as [[[u2 fs2] tr2]|] eqn:Hr;
      [|discriminate].
    injection H as _ <- <-.
    destruct (Hb x (or_introl eq_refl) _ _ _ _ Hfs Hx) as [Hfs1 He1].
    destruct (IH (fun y Hy => Hb y (or_intror Hy)) _ _ _ _ Hfs1 Hr)
      as [Hfs2 He2].
    split; [exact Hfs2|]. apply Forall_app. auto.
Qed.

Section Confined.
Variable Data : Type.
Variable t : Translator Data.
Hypothesis Hcf : CopyFunc t = ColdCopy.
Hypothesis Hs : Source t <> "".
Hypothesis Ht : Target t <> "".
Hypothesis Hns : no_dotdot (Source t) = true.
Hypothesis Hnt : no_dotdot (Target t) = true.

Lemma CopyFile_confined subpath fi fs res fs' tr :
  names_proper fs = true -> no_dotdot subpath = true ->
  CopyFile t subpath fi fs = Some (res, fs', tr) ->
  names_proper fs' = true /\ Forall (confined_event t) tr.
Proof.
  intros Hfs Hsub H. unfold CopyFile in H.
  destruct (negb (ExcludeFile t fi)).
  - rewrite Hcf in H. split; [eapply ColdCopy_proper; eauto|].
    apply ColdCopy_events in H. eapply Forall_impl; [|exact H].
    pose proof (inside_join _ _ Hs Hns Hsub) as Hi1.
    pose proof (inside_join _ _ Ht Hnt Hsub) as Hi2.
    intros ev Hev. destruct ev; simpl in Hev |- *; try contradiction;
      subst; auto.
    destruct Hev as [->| ->]; auto.
  - injection H as _ <- <-. auto.
Qed.

Lemma walk_confined_gen fatal copyDir :
  CopyDir_steps (Data:=Data) fatal copyDir ->
  (forall t' subpath fs, copyDir O t' subpath fs = None) ->
  forall fuel subpath fs res fs' tr,
    names_proper fs = true -> no_dotdot subpath = true ->
    copyDir fuel t subpath fs = Some (res, fs', tr) ->
    names_proper fs' = true /\ Forall (confined_event t) tr.
Proof.
  intros Hsteps Hzero.
  induction fuel as [|fuel IH]; intros subpath fs res fs' tr Hfs Hsub H.
  - rewrite Hzero in H. discriminate.
  - destruct (Hsteps fuel t subpath fs)
      as (children & lerr & ltr & Hg & Hl & Hrest).
    pose proof (inside_join _ _ Hs Hns Hsub) as Hi1.
    pose proof (inside_join _ _ Ht Hnt Hsub) as Hi2.
    assert (Hel : Forall (confined_event t) ltr).
    { destruct Hl as [-> | ->]; repeat constructor; simpl; auto. }
    destruct lerr as [e|].
    + rewrite Hrest in H. injection H as _ <- <-. auto.
    + destruct Hrest as (merr & fs2 & Hm & _ & Hcd).
      pose proof (os_Mkdir_proper _ _ _ _ _ _ Hfs Hm) as Hfs2.
      pose proof (GetChildren_names _ _ _ _ _ _ Hfs Hg) as Hnames.
      rewrite Hcd in H. destruct (fatal merr).
      * injection H as _ <- <-. split; [exact Hfs2|].
        apply Forall_app. split; [exact Hel|].
        repeat constructor; simpl; auto.
      * destruct (for_each children (copy_child (copyDir fuel t) t subpath)
                    fs2) as [[[u fs3] rest]|] eqn:Hf; [|discriminate].
        injection H as _ <- <-.
        destruct (for_each_confined (confined_event t)
                    (copy_child (copyDir fuel t) t subpath) children)
          with (fs := fs2) (u := u) (fs' := fs3) (tr := rest)
          as [Hfs3 Her]; [|exact Hfs2|exact Hf|].
        -- intros child Hin fs4 u4 fs5 tr5 Hfs4. unfold copy_child.
           rewrite Forall_forall in Hnames.
           pose proof (child_subpath _ _ Hsub (Hnames _ Hin)) as Hsub'.
           destruct (IsDir child); unfold bind, ret.
           ++ destruct (copyDir fuel t _ fs4) as [[[r6 fs6] tr6]|] eqn:Hc;
                [|discriminate].
              intros H6. injection H6 as _ <- <-. rewrite app_nil_r.
              eapply IH; eauto.
           ++ destruct (CopyFile t _ child fs4) as [[[r6 fs6] tr6]|] eqn:Hc;
                [|discriminate].
              intros H6. injection H6 as _ <- <-. rewrite app_nil_r.
              eapply CopyFile_confined; eauto.
        -- split; [exact Hfs3|].
           apply Forall_app. split; [exact Hel|].
           constructor; [simpl; auto|exact Her].
Qed.

End Confined.

(** X9. A walk with [ColdCopy] stays under its two roots, in both
    revisions.  Let neither root be empty, let neither root nor the
    subpath have a [..] element, and let every directory entry of the
    file system have a proper name (not empty, not [.] or [..], no
    slash).  Then every name the walk opens, lists or reads lies under
    the source; every name it creates or writes lies under the target;
    every directory it makes lies under the target and is made with
    [DirMode]; what it closes lies under one of the two; and the entries
    of the file system it leaves have proper names again.  A name lies
    under a root when the elements of the root are its first elements
    and it has no [..] element. *)
Theorem walk_stays_under_roots (Data : Type) (t : Translator Data)
    (fuel : nat) (subpath : string) (fs : node)
    (res : option error) (fs' : node) (tr : list Event) :
  CopyFunc t = ColdCopy ->
  Source t <> "" -> Target t <> "" ->
  no_dotdot (Source t) = true -> no_dotdot (Target t) = true ->
  no_dotdot subpath = true ->
  names_proper fs = true ->
  RevA.CopyDir fuel t subpath fs = Some (res, fs', tr) \/
  RevB.CopyDir fuel t subpath fs = Some (res, fs', tr) ->
  names_proper fs' = true /\ Forall (confined_event t) tr.
Proof.
  intros Hcf Hs Ht Hns Hnt Hsub Hfs [H|H].
  - eapply (walk_confined_gen Data t Hcf Hs Ht Hns Hnt fatal_A);
      eauto using A_CopyDir_steps.
  - eapply (walk_confined_gen Data t Hcf Hs Ht Hns Hnt fatal_B);
      eauto using B_CopyDir_steps.
Qed.

Lemma walk_stays_under_roots_witness :
  Forall (confined_event Demo.t0) Demo.walk_trace /\
  inside "src" "out/b.txt" = false /\
  inside "out" "src/b.txt" = false /\
  inside "out" "out/../src/b.txt" = false /\
  inside "out" "/out/b.txt" = false.
Proof.
  split; [|repeat split; reflexivity].
  apply (walk_stays_under_roots (list byte) Demo.t0 2 "" Demo.fs0
           None Demo.fs_copied Demo.walk_trace eq_refl).
  - discriminate.
  - discriminate.
  - reflexivity.
  - reflexivity.
  - reflexivity.
  - reflexivity.
  - right. vm_compute. reflexivity.
Defined.
